(** * ua2idl: from an OPC UA binary type dictionary to IDL declarations

    A shallow embedding of [ua2idl.py]: the identifier sanitizer
    ([protected_identifier]), the type model ([Type] and its subclasses),
    the dependency resolver ([parseTypeDefinitions] and its nested
    functions) and the emitter loop that closes the script, followed by
    the properties established about them. *)

From Stdlib Require Import String Ascii List Bool Arith Lia.
Import ListNotations.
Open Scope string_scope.

(** ** Strings and Python's containment tests *)

(** The two control characters the script writes as [\t] and [\n]. *)
Definition TAB : string := String "009"%char EmptyString.
Definition LF : string := String "010"%char EmptyString.

(** [s in l] for a Python list of strings. *)
Definition in_list (s : string) (l : list string) : bool :=
  existsb (String.eqb s) l.
Arguments in_list : simpl never.

(** [sub in s] for two Python strings: [sub] starts at some position of [s]. *)
Fixpoint contains (sub s : string) : bool :=
  prefix sub s ||
  match s with
  | EmptyString => false
  | String _ s' => contains sub s'
  end.

(** [s[:-n]]: every use in the script has [n <= len(s)]. *)
Definition drop_last (n : nat) (s : string) : string :=
  substring 0 (String.length s - n) s.

(** ** Module-level tables *)

Definition builtin_types : list string :=
  ["Boolean"; "SByte"; "Byte"; "Int16"; "UInt16";
   "Int32"; "UInt32"; "Int64"; "UInt64"; "Float";
   "Double"; "String"; "DateTime"; "Guid"; "ByteString";
   "XmlElement"; "NodeId"; "ExpandedNodeId"; "StatusCode";
   "QualifiedName"; "LocalizedText"; "ExtensionObject"; "DataValue";
   "Variant"; "DiagnosticInfo"].

(** empty structs are not allowed in IDL *)
Definition skip_types : list string :=
  ["FilterOperand"; "HistoryReadDetails"; "MonitoringFilter";
   "MonitoringFilterResult"; "NotificationData"].

(** idl keywords are prefixed with a "_" *)
Definition idl_keywords : list string :=
  ["abstract"; "exception"; "inout"; "provides"; "truncatable";
   "any"; "emits"; "interface"; "public"; "typedef"; "attribute";
   "enum"; "local"; "publishes"; "typeid"; "boolean"; "eventtype";
   "long"; "raises"; "typeprefix"; "case"; "factory"; "module"; "readonly";
   "unsigned"; "char"; "FALSE"; "multiple"; "setraises"; "union"; "component";
   "finder"; "native"; "sequence"; "uses"; "const"; "fixed"; "Object"; "short";
   "ValueBase"; "consumes"; "float"; "octet"; "string"; "valuetype"; "context";
   "getraises"; "oneway"; "struct"; "void"; "custom"; "home"; "out"; "supports";
   "wchar"; "default"; "import"; "primarykey"; "switch"; "wstring"; "double"; "in";
   "private"; "TRUE"].

(** ** Identifier sanitizer *)

Definition protected_identifier (s : string) : string :=
  if in_list s idl_keywords then "_" ++ s else s.

(** ** Ordered dictionaries

    [collections.OrderedDict] with string keys: the keys are pairwise
    distinct and kept in insertion order.  Assigning to a key that is
    already present replaces the value and leaves the key where it is;
    assigning to a new key appends it. *)

Definition OrderedDict (V : Type) : Type := list (string * V).

Fixpoint od_contains {V : Type} (k : string) (d : OrderedDict V) : bool :=
  match d with
  | [] => false
  | (k', _) :: d' => (k' =? k) || od_contains k d'
  end.

Fixpoint od_get {V : Type} (k : string) (d : OrderedDict V) : option V :=
  match d with
  | [] => None
  | (k', v) :: d' => if k' =? k then Some v else od_get k d'
  end.

Fixpoint od_set {V : Type} (k : string) (v : V) (d : OrderedDict V)
  : OrderedDict V :=
  match d with
  | [] => [(k, v)]
  | (k', v') :: d' => if k' =? k then (k', v) :: d' else (k', v') :: od_set k v d'
  end.

Definition od_keys {V : Type} (d : OrderedDict V) : list string := map fst d.
Definition od_values {V : Type} (d : OrderedDict V) : list V := map snd d.

(** Position of a key in iteration order. *)
Fixpoint od_index {V : Type} (k : string) (d : OrderedDict V) : option nat :=
  match d with
  | [] => None
  | (k', _) :: d' => if k' =? k then Some 0 else option_map S (od_index k d')
  end.

(** ** Type model

    One constructor per class.  [description] is [child.text] of the
    record's Documentation child, which lxml gives as [None] for an empty
    element.  The [*_init] functions below are the classes' [__init__]. *)

Inductive Type_ : Type :=
| BuiltinType (name : string) (description : option string)
| EnumerationType (name : string) (description : option string)
    (elements : OrderedDict (option string))
| OpaqueType (name : string) (description : option string)
| StructType (name : string) (description : option string)
    (members : OrderedDict StructMember)
with StructMember : Type :=
| Build_StructMember (member_name : string) (memberType : Type_)
    (isArray : bool).

Definition type_name (t : Type_) : string :=
  match t with
  | BuiltinType name _ | EnumerationType name _ _
  | OpaqueType name _ | StructType name _ _ => name
  end.

(** [t.elements], which only an enumeration has. *)
Definition elements_of (t : Type_) : OrderedDict (option string) :=
  match t with
  | EnumerationType _ _ elements => elements
  | _ => []
  end.

Definition member_name (m : StructMember) : string :=
  let 'Build_StructMember n _ _ := m in n.
Definition memberType (m : StructMember) : Type_ :=
  let 'Build_StructMember _ t _ := m in t.
Definition isArray (m : StructMember) : bool :=
  let 'Build_StructMember _ _ a := m in a.

(** [BuiltinType(t)]: [Type.__init__] with the default description. *)
Definition BuiltinType_init (name : string) : Type_ :=
  BuiltinType name (Some "").

Definition EnumerationType_init (name : string) (description : option string)
  (elements : OrderedDict (option string)) : Type_ :=
  EnumerationType (protected_identifier name) description elements.

(** [OpaqueType] inherits [Type.__init__]: the name is stored as given. *)
Definition OpaqueType_init (name : string) (description : option string)
  : Type_ :=
  OpaqueType name description.

(** [memberType] is a [Type] object, which is equal to no string of
    [idl_keywords]: [protected_identifier(memberType)] returns it as is. *)
Definition StructMember_init (name : string) (memberType : Type_)
  (isArray : bool) : StructMember :=
  Build_StructMember (protected_identifier name) memberType isArray.

Definition StructType_init (name : string) (description : option string)
  (members : OrderedDict StructMember) : Type_ :=
  StructType (protected_identifier name) description members.

(** *** Declaration text *)

Definition EnumerationType_typedef_idl (name : string)
  (elements : OrderedDict (option string)) : string :=
  let tdef :=
    fold_left
      (fun tdef el => tdef ++ TAB ++ TAB ++ protected_identifier el ++ ", " ++ LF)
      (od_keys elements)
      (TAB ++ "enum " ++ name ++ " {" ++ LF) in
  drop_last 3 tdef ++ LF ++ TAB ++ "};".

Definition OpaqueType_typedef_idl (name : string) : string :=
  TAB ++ "typedef ByteString " ++ protected_identifier name ++ ";".

Definition StructType_typedef_idl (name : string)
  (members : OrderedDict StructMember) : string :=
  let tdef :=
    fold_left
      (fun tdef member =>
         if isArray member
         then tdef ++ TAB ++ TAB ++ "ListOf" ++ type_name (memberType member)
                   ++ " " ++ member_name member ++ ";" ++ LF
         else tdef ++ TAB ++ TAB ++ type_name (memberType member)
                   ++ " " ++ member_name member ++ ";" ++ LF)
      (od_values members)
      (TAB ++ " struct " ++ name ++ " {" ++ LF) in
  tdef ++ TAB ++ "};".

(** [Type.typedef_idl] is [pass] and returns [None]; [BuiltinType]
    inherits it. *)
Definition typedef_idl (t : Type_) : option string :=
  match t with
  | BuiltinType _ _ => None
  | EnumerationType name _ elements =>
      Some (EnumerationType_typedef_idl name elements)
  | OpaqueType name _ => Some (OpaqueType_typedef_idl name)
  | StructType name _ members => Some (StructType_typedef_idl name members)
  end.

(** ** Schema records

    What the script reads off the lxml elements.  [typeSnippets] is a list
    of [TypeXml]; iterating one yields its [Child]ren.  [Name] and
    [TypeName] are the attributes the script dereferences without a test
    (a missing one raises), so they are plain strings; [LengthField],
    [Value] and [text] may be [None].  The loop on elements that may lack
    a Name, with the error it then raises, is
    [parseTypeDefinitions_elements] below. *)

Record Child : Type := mkChild {
  tag : string;
  Name : string;
  TypeName : string;
  LengthField : option string;
  Value : option string;
  text : option string
}.

Record TypeXml : Type := mkTypeXml {
  type_tag : string;
  type_Name : string;
  children : list Child
}.

Definition Documentation_tag : string :=
  "{http://opcfoundation.org/BinarySchema/}Documentation".
Definition EnumeratedValue_tag : string :=
  "{http://opcfoundation.org/BinarySchema/}EnumeratedValue".
Definition Field_tag : string :=
  "{http://opcfoundation.org/BinarySchema/}Field".
Definition EnumeratedType_tag : string :=
  "{http://opcfoundation.org/BinarySchema/}EnumeratedType".
Definition OpaqueType_tag : string :=
  "{http://opcfoundation.org/BinarySchema/}OpaqueType".
Definition StructuredType_tag : string :=
  "{http://opcfoundation.org/BinarySchema/}StructuredType".

(** Truth value of an optional attribute in an [if]: [None] and the empty
    string are false. *)
Definition truthy (a : option string) : bool :=
  match a with
  | Some s => negb (s =? "")
  | None => false
  end.

(** ** Dependency resolver *)

(** The registry before the loop: every builtin, in table order. *)
Definition initial_types : OrderedDict Type_ :=
  fold_left (fun types t => od_set t (BuiltinType_init t) types)
    builtin_types [].

(** [re.search("NodeId$", name) != None].  Without [re.MULTILINE], [$]
    matches at the end of the string and also just before a newline that
    ends the string; the search tries every start position. *)
Fixpoint re_search_NodeId_end (name : string) : bool :=
  (name =? "NodeId") || (name =? "NodeId" ++ LF) ||
  match name with
  | EmptyString => false
  | String _ name' => re_search_NodeId_end name'
  end.

(** types we do not want to autogenerate *)
Definition skipType (name : string) : bool :=
  if in_list name builtin_types then true
  else if in_list name skip_types then true
  else if contains "Test" name then true
  else if re_search_NodeId_end name then true
  else false.

(** [tn[tn.find(":")+1:]]: [find] is [-1] when there is no colon, and the
    slice is then the whole string. *)
Definition stripTypename (tn : string) : string :=
  match index 0 ":" tn with
  | Some i => substring (i + 1) (String.length tn - (i + 1)) tn
  | None => tn
  end.

(** Do we have the member types yet?

    The script defines [typeReady] and does not call it; the loop returns
    [False] at the first Field whose type is not in the registry. *)
Fixpoint typeReady_loop (types : OrderedDict Type_) (cs : list Child) : bool :=
  match cs with
  | [] => true
  | child :: cs' =>
      if tag child =? Field_tag then
        if negb (od_contains (stripTypename (TypeName child)) types) then false
        else typeReady_loop types cs'
      else typeReady_loop types cs'
  end.

Definition typeReady (types : OrderedDict Type_) (element : TypeXml) : bool :=
  typeReady_loop types (children element).

(** The loop of [parseEnumeration], on its two variables. *)
Fixpoint parseEnumeration_loop (name : string) (cs : list Child)
  (description : option string) (elements : OrderedDict (option string))
  : option string * OrderedDict (option string) :=
  match cs with
  | [] => (description, elements)
  | child :: cs' =>
      let description :=
        if tag child =? Documentation_tag then text child else description in
      let elements :=
        if tag child =? EnumeratedValue_tag
        then od_set (name ++ "_" ++ Name child) (Value child) elements
        else elements in
      parseEnumeration_loop name cs' description elements
  end.

Definition parseEnumeration (typeXml : TypeXml) : Type_ :=
  let name := type_Name typeXml in
  let '(description, elements) :=
    parseEnumeration_loop name (children typeXml) (Some "") [] in
  EnumerationType_init name description elements.

Fixpoint parse_description (cs : list Child) (description : option string)
  : option string :=
  match cs with
  | [] => description
  | child :: cs' =>
      parse_description cs'
        (if tag child =? Documentation_tag then text child else description)
  end.

Definition parseOpaque (typeXml : TypeXml) : Type_ :=
  let name := type_Name typeXml in
  let description := parse_description (children typeXml) (Some "") in
  OpaqueType_init name description.

(** ignore lengthfields, just tag the array-members as an array

    The [if] is the truth test of [child.get("LengthField")], the [match]
    reads the attribute that is appended. *)
Fixpoint parse_lengthfields (cs : list Child) (lengthfields : list string)
  : list string :=
  match cs with
  | [] => lengthfields
  | child :: cs' =>
      parse_lengthfields cs'
        (if truthy (LengthField child)
         then match LengthField child with
              | Some lf => lengthfields ++ [lf]
              | None => lengthfields
              end
         else lengthfields)
  end.

(** The member loop of [parseStructured]; [None] is its early
    [return None]. *)
Fixpoint parse_members (types : OrderedDict Type_) (lengthfields : list string)
  (cs : list Child) (members : OrderedDict StructMember)
  : option (OrderedDict StructMember) :=
  match cs with
  | [] => Some members
  | child :: cs' =>
      if negb (tag child =? Field_tag) then
        parse_members types lengthfields cs' members
      else if in_list (Name child) lengthfields then
        parse_members types lengthfields cs' members
      else
        let memberTypeName := stripTypename (TypeName child) in
        match od_get memberTypeName types with
        | None => None
        | Some memberType =>
            let memberName := Name child in
            let isArray := if truthy (LengthField child) then true else false in
            parse_members types lengthfields cs'
              (od_set memberName
                 (StructMember_init memberName memberType isArray) members)
        end
  end.

(** Returns None if we miss member descriptions *)
Definition parseStructured (types : OrderedDict Type_) (typeXml : TypeXml)
  : option Type_ :=
  let name := type_Name typeXml in
  let description := parse_description (children typeXml) (Some "") in
  let lengthfields := parse_lengthfields (children typeXml) [] in
  match parse_members types lengthfields (children typeXml) [] with
  | None => None
  | Some members => Some (StructType_init name description members)
  end.

(** Body of the [for] loop, on the two variables it assigns: the registry
    and [finished]. *)
Definition loop_body (state : OrderedDict Type_ * bool) (typeXml : TypeXml)
  : OrderedDict Type_ * bool :=
  let '(types, finished) := state in
  let name := type_Name typeXml in
  if od_contains name types || skipType name then (types, finished)
  else if type_tag typeXml =? EnumeratedType_tag then
    let t := parseEnumeration typeXml in
    (od_set (type_name t) t types, finished)
  else if type_tag typeXml =? OpaqueType_tag then
    let t := parseOpaque typeXml in
    (od_set (type_name t) t types, finished)
  else if type_tag typeXml =? StructuredType_tag then
    match parseStructured types typeXml with
    | None => (types, false)
    | Some t => (od_set (type_name t) t types, finished)
    end
  else (types, finished).

(** One iteration of the [while] loop: [finished = True], then the [for]
    loop over all snippets. *)
Definition pass (typeSnippets : list TypeXml) (types : OrderedDict Type_)
  : OrderedDict Type_ * bool :=
  fold_left loop_body typeSnippets (types, true).

(** The [while] loop.  [fuel] bounds the number of passes; [None] means
    the bound was reached with [finished] still false. *)
Fixpoint while_loop (fuel : nat) (typeSnippets : list TypeXml)
  (types : OrderedDict Type_) : option (OrderedDict Type_) :=
  match fuel with
  | 0 => None
  | S fuel' =>
      let '(types', finished) := pass typeSnippets types in
      if finished then Some types' else while_loop fuel' typeSnippets types'
  end.

Definition parseTypeDefinitions (fuel : nat) (typeSnippets : list TypeXml)
  : option (OrderedDict Type_) :=
  while_loop fuel typeSnippets initial_types.

(** *** Elements without a Name

    [typeXml.get("Name")] is [None] for an element that lacks the
    attribute, whatever its tag (a Documentation element at the top of the
    dictionary, say).  Then [name in types] is false, [skipType(None)]
    passes its two list tests and raises [TypeError] at ["Test" in name]:
    the script stops at the first such element of the first pass.  An
    element with a Name is the [TypeXml] record above. *)

Record Element : Type := mkElement {
  element_tag : string;
  element_Name : option string;
  element_children : list Child
}.

Inductive Outcome : Type :=
| Returned (types : OrderedDict Type_)
| TypeError
| OutOfFuel.

(** The [for] loop; [None] is the exception. *)
Fixpoint for_loop (typeSnippets : list Element)
  (state : OrderedDict Type_ * bool) : option (OrderedDict Type_ * bool) :=
  match typeSnippets with
  | [] => Some state
  | typeXml :: typeSnippets' =>
      match element_Name typeXml with
      | None => None
      | Some name =>
          for_loop typeSnippets'
            (loop_body state
               (mkTypeXml (element_tag typeXml) name
                  (element_children typeXml)))
      end
  end.

Fixpoint while_loop_elements (fuel : nat) (typeSnippets : list Element)
  (types : OrderedDict Type_) : Outcome :=
  match fuel with
  | 0 => OutOfFuel
  | S fuel' =>
      match for_loop typeSnippets (types, true) with
      | None => TypeError
      | Some (types', finished) =>
          if finished then Returned types'
          else while_loop_elements fuel' typeSnippets types'
      end
  end.

Definition parseTypeDefinitions_elements (fuel : nat)
  (typeSnippets : list Element) : Outcome :=
  while_loop_elements fuel typeSnippets initial_types.

(** ** Emitter

    The output file as the list of strings given to [printidl], each of
    which [print] ends with a newline. *)

Definition printidl (s : string) (idl : list string) : list string :=
  idl ++ [s].

(** [print] of a value that may be [None]. *)
Definition str (o : option string) : string :=
  match o with
  | Some s => s
  | None => "None"
  end.

Definition ListOf_idl (name : string) : string :=
  TAB ++ "union ListOf" ++ name ++ " switch(boolean) { case true: sequence<"
      ++ name ++ "> Content; };" ++ LF.

Definition emit_body (idl : list string) (item : string * Type_)
  : list string :=
  let '(name, t) := item in
  if in_list name builtin_types then idl
  else printidl (ListOf_idl name) (printidl (str (typedef_idl t)) idl).

Definition emit_types (types : OrderedDict Type_) (idl : list string)
  : list string :=
  fold_left emit_body types idl.

(** The script after argument parsing; [prelude] is the literal block of
    hand-written declarations that opens the module. *)
Definition main (prelude : string) (fuel : nat) (typeSnippets : list TypeXml)
  : option (list string) :=
  match parseTypeDefinitions fuel typeSnippets with
  | None => None
  | Some types => Some (printidl "};" (emit_types types (printidl prelude [])))
  end.

Definition document (idl : list string) : string :=
  String.concat "" (map (fun s => s ++ LF) idl).

(** ** Vocabulary of the properties *)

(** [s.endswith(suffix)]. *)
Fixpoint endswith (suffix s : string) : bool :=
  (s =? suffix) ||
  match s with
  | EmptyString => false
  | String _ s' => endswith suffix s'
  end.

(** The registry entries the emitter loop prints: those whose key is not
    a builtin. *)
Definition emitted (types : OrderedDict Type_) : OrderedDict Type_ :=
  filter (fun item => negb (in_list (fst item) builtin_types)) types.

(** What the emitter loop prints for one entry. *)
Definition declarations (item : string * Type_) : list string :=
  [str (typedef_idl (snd item)); ListOf_idl (fst item)].

(** What holds of every entry of a registry the resolver builds: it is
    filed under its own name, and it is either the seeded builtin or a
    type with a declaration whose name is not excluded. *)
Definition entry_ok (item : string * Type_) : Prop :=
  type_name (snd item) = fst item /\
  ((In (fst item) builtin_types /\ snd item = BuiltinType_init (fst item)) \/
   (skipType (fst item) = false /\
    skipType (protected_identifier (fst item)) = false /\
    typedef_idl (snd item) <> None)).

(** Neither the type that field [f] references nor record [R] is in the
    registry. *)
Definition stalled (R : TypeXml) (f : Child) (types : OrderedDict Type_)
  : Prop :=
  od_contains (stripTypename (TypeName f)) types = false /\
  od_contains (type_Name R) types = false.

(** The EnumeratedValue children of a record, in document order. *)
Definition EnumeratedValues (typeXml : TypeXml) : list Child :=
  filter (fun child => tag child =? EnumeratedValue_tag) (children typeXml).

(** The key [parseEnumeration] files an element under. *)
Definition qualified_name (name : string) (child : Child) : string :=
  name ++ "_" ++ Name child.

(** An enum declaration with the given case labels, one per line and
    separated by commas; without labels the text has no braces to open. *)
Definition enum_declaration (name : string) (labels : list string) : string :=
  match labels with
  | [] => TAB ++ "enum " ++ name ++ LF ++ TAB ++ "};"
  | _ :: _ =>
      TAB ++ "enum " ++ name ++ " {" ++ LF
          ++ String.concat (", " ++ LF) (map (fun l => TAB ++ TAB ++ l) labels)
          ++ LF ++ TAB ++ "};"
  end.

(** A child of a Structured record becomes a member when it is a Field
    and its name is not among the collected length fields. *)
Definition is_member (lengthfields : list string) (child : Child) : bool :=
  (tag child =? Field_tag) && negb (in_list (Name child) lengthfields).

Definition member_fields (typeXml : TypeXml) : list Child :=
  filter (is_member (parse_lengthfields (children typeXml) []))
    (children typeXml).

(** The member built from a field and the registry type it references. *)
Definition member_of (child : Child) (memberType : Type_)
  : string * StructMember :=
  (Name child,
   StructMember_init (Name child) memberType (truthy (LengthField child))).

(** One line of a struct declaration: [ListOf<MemberType> <MemberName>]
    for an array, [<MemberType> <MemberName>] otherwise. *)
Definition field_declaration (isArray : bool) (memberType memberName : string)
  : string :=
  TAB ++ TAB ++ (if isArray then "ListOf" else "") ++ memberType
      ++ " " ++ memberName ++ ";" ++ LF.

Definition member_declaration (child : Child) (memberType : Type_) : string :=
  field_declaration (truthy (LengthField child)) (type_name memberType)
    (protected_identifier (Name child)).

Definition struct_declaration (name : string) (lines : list string) : string :=
  TAB ++ " struct " ++ name ++ " {" ++ LF
      ++ fold_right append "" lines ++ TAB ++ "};".

(** The names of the registry types a type's declaration refers to. *)
Definition referenced_types (t : Type_) : list string :=
  match t with
  | StructType _ _ members =>
      map (fun m => type_name (memberType m)) (od_values members)
  | _ => []
  end.

(** Walking the registry front to back, every type refers only to keys
    already met ([known] holds them). *)
Fixpoint defined_in_order (known : list string) (types : OrderedDict Type_)
  : bool :=
  match types with
  | [] => true
  | (name, t) :: types' =>
      forallb (fun r => in_list r known) (referenced_types t) &&
      defined_in_order (known ++ [name]) types'
  end.

(** A record whose registry key is its name as read: its name is not a
    reserved word, or it is an opaque type (whose name is stored as is). *)
Definition filed_under_own_name (typeXml : TypeXml) : Prop :=
  in_list (type_Name typeXml) idl_keywords = false \/
  type_tag typeXml = OpaqueType_tag.



(** The key of an entry is in sanitized form, unless the entry is an
    opaque type, which is filed under its name as read. *)
Definition sanitized_key (item : string * Type_) : Prop :=
  (exists description, snd item = OpaqueType (fst item) description) \/
  protected_identifier (fst item) = fst item.

(** A record the loop does something with: it is not excluded and its
    tag is one of the three the loop tests for. *)
Definition takes_part (typeXml : TypeXml) : bool :=
  negb (skipType (type_Name typeXml)) &&
  ((type_tag typeXml =? EnumeratedType_tag) ||
   (type_tag typeXml =? OpaqueType_tag) ||
   (type_tag typeXml =? StructuredType_tag)).


(** The type the loop builds from an Enumeration or Opaque record. *)
Definition resolve_now (typeXml : TypeXml) : Type_ :=
  if type_tag typeXml =? EnumeratedType_tag
  then parseEnumeration typeXml
  else parseOpaque typeXml.

(** The key the loop files a record under: the name as read for an
    opaque type, the sanitized name for an enumeration or a structure. *)
Definition registry_key (typeXml : TypeXml) : string :=
  if type_tag typeXml =? OpaqueType_tag
  then type_Name typeXml
  else protected_identifier (type_Name typeXml).

(** Child [g] names the field called [name] as its length field: it
    carries a LengthField attribute, not empty, equal to [name]. *)
Definition names_length_field (g : Child) (name : string) : bool :=
  match LengthField g with
  | Some lf => negb (lf =? "") && (lf =? name)
  | None => false
  end.

(** The remaining fields of a Structured record, read off the record
    alone: its Field children, in document order, except those that some
    child of the record names as its length field. *)
Definition remaining_fields (typeXml : TypeXml) : list Child :=
  filter (fun child =>
            (tag child =? Field_tag) &&
            negb (existsb (fun g => names_length_field g (Name child))
                    (children typeXml)))
    (children typeXml).

(** An element with a Name, as an element. *)
Definition element_of (typeXml : TypeXml) : Element :=
  mkElement (type_tag typeXml) (Some (type_Name typeXml)) (children typeXml).

(** An element the loop does something with: it has no Name (the loop
    raises), or it has one and takes part. *)
Definition element_takes_part (typeXml : Element) : bool :=
  match element_Name typeXml with
  | None => true
  | Some name =>
      takes_part (mkTypeXml (element_tag typeXml) name
                    (element_children typeXml))
  end.

(** The outcome of the loop on records that all have a Name. *)
Definition outcome_of (result : option (OrderedDict Type_)) : Outcome :=
  match result with
  | Some types => Returned types
  | None => OutOfFuel
  end.

(** ** Sample schema records *)

Definition a_Documentation (doc : string) : Child :=
  mkChild Documentation_tag "" "" None None (Some doc).

Definition a_Field (name typeName : string) (lengthField : option string)
  : Child :=
  mkChild Field_tag name typeName lengthField None None.

Definition an_EnumeratedValue (name value : string) : Child :=
  mkChild EnumeratedValue_tag name "" None (Some value) None.

Definition an_EnumeratedType (name : string) (cs : list Child) : TypeXml :=
  mkTypeXml EnumeratedType_tag name cs.

Definition an_OpaqueType (name : string) (cs : list Child) : TypeXml :=
  mkTypeXml OpaqueType_tag name cs.

Definition a_StructuredType (name : string) (cs : list Child) : TypeXml :=
  mkTypeXml StructuredType_tag name cs.

Definition Color_example : TypeXml :=
  an_EnumeratedType "Color"
    [a_Documentation "A colour.";
     an_EnumeratedValue "Red" "0";
     an_EnumeratedValue "Green" "1";
     an_EnumeratedValue "Blue" "2"].

(** An enumeration that declares the same element name twice. *)
Definition repeated_element_example : TypeXml :=
  an_EnumeratedType "Switch"
    [an_EnumeratedValue "Off" "0";
     an_EnumeratedValue "On" "1";
     an_EnumeratedValue "On" "2"].

(** A structure with an array field and its length field. *)
Definition array_field_example : TypeXml :=
  a_StructuredType "Series"
    [a_Documentation "A series of values.";
     a_Field "NoOfValues" "opc:Int32" None;
     a_Field "Values" "opc:Double" (Some "NoOfValues");
     a_Field "Unit" "opc:String" None].

(** A structure that declares a field name twice, and a field whose
    LengthField attribute is empty. *)
Definition repeated_field_example : TypeXml :=
  a_StructuredType "Sample"
    [a_Field "Flags" "opc:Byte" (Some "");
     a_Field "Value" "opc:Int32" None;
     a_Field "NoOfValue" "opc:Int32" None;
     a_Field "Value" "opc:Double" (Some "NoOfValue")].

(** A record that [skipType] excludes. *)
Definition excluded_example : TypeXml :=
  a_StructuredType "MyTestType" [a_Field "x" "opc:Int32" None].

(** A structure with a member of a type that no record declares. *)
Definition unresolvable_input : list TypeXml :=
  [a_StructuredType "Reading"
     [a_Documentation "A sensor reading.";
      a_Field "Source" "tns:Sensor" None;
      a_Field "Level" "opc:Double" None]].

(** Two structures filed under the reserved word "struct", the second of
    which uses a structure declared in between. *)
Definition reserved_name_twice : list TypeXml :=
  [a_StructuredType "struct" [a_Field "Id" "opc:Int32" None];
   a_StructuredType "A" [a_Field "Level" "opc:Double" None];
   a_StructuredType "struct" [a_Field "Part" "tns:A" None]].

(** An opaque type named by a reserved word. *)
Definition reserved_opaque : list TypeXml :=
  [an_OpaqueType "string" [a_Documentation "A character string."]].

(** The same enumeration name twice, reserved and not. *)
Definition switch_twice : list TypeXml :=
  [an_EnumeratedType "switch"
     [an_EnumeratedValue "Off" "0"; an_EnumeratedValue "On" "1"];
   an_EnumeratedType "switch"
     [an_EnumeratedValue "Low" "0"; an_EnumeratedValue "High" "1"]].

Definition Toggle_twice : list TypeXml :=
  [an_EnumeratedType "Toggle"
     [an_EnumeratedValue "Off" "0"; an_EnumeratedValue "On" "1"];
   an_EnumeratedType "Toggle"
     [an_EnumeratedValue "Low" "0"; an_EnumeratedValue "High" "1"]].

(** * Properties *)

(** ** Sanitizer properties *)

Lemma in_list_In (s : string) (l : list string) :
  in_list s l = true <-> In s l.
Proof.
  unfold in_list. rewrite existsb_exists. split.
  - intros [x [Hx He]]. apply String.eqb_eq in He. now subst.
  - intros H. exists s. split; [assumption | apply String.eqb_refl].
Qed.

Lemma in_list_not_In (s : string) (l : list string) :
  in_list s l = false <-> ~ In s l.
Proof.
  rewrite <- in_list_In. destruct (in_list s l); split; congruence.
Qed.

(** No reserved word starts with the escape character. *)
Lemma keywords_no_underscore :
  forallb (fun k => negb (prefix "_" k)) idl_keywords = true.
Proof. reflexivity. Qed.

Lemma underscore_not_keyword (s : string) :
  in_list ("_" ++ s) idl_keywords = false.
Proof.
  apply in_list_not_In. intros H.
  pose proof keywords_no_underscore as K.
  rewrite forallb_forall in K. specialize (K _ H).
  destruct s; discriminate K.
Qed.

(** C8. The sanitizer is a total function; on a reserved word it returns
    the word prefixed with "_", which differs from the word and is not
    reserved; on any other string it returns the string unchanged. *)
Theorem protected_identifier_spec (s : string) :
  (In s idl_keywords ->
     protected_identifier s = "_" ++ s /\
     protected_identifier s <> s /\
     ~ In (protected_identifier s) idl_keywords) /\
  (~ In s idl_keywords -> protected_identifier s = s).
Proof.
  unfold protected_identifier. split; intros H.
  - apply in_list_In in H. rewrite H. repeat split.
    + intros E. apply (f_equal String.length) in E. simpl in E.
      lia.
    + apply in_list_not_In, underscore_not_keyword.
  - apply in_list_not_In in H. now rewrite H.
Qed.

Lemma protected_identifier_spec_witness :
  (protected_identifier "enum" = "_enum" /\
   protected_identifier "enum" <> "enum" /\
   ~ In (protected_identifier "enum") idl_keywords) /\
  protected_identifier "Color" = "Color".
Proof.
  split.
  - apply (proj1 (protected_identifier_spec "enum")).
    apply in_list_In. reflexivity.
  - apply (proj2 (protected_identifier_spec "Color")).
    apply in_list_not_In. reflexivity.
Defined.

(** C10. Sanitizing twice is sanitizing once: the escaped form of a
    reserved word starts with "_", and no reserved word does. *)
Theorem protected_identifier_idempotent (s : string) :
  protected_identifier (protected_identifier s) = protected_identifier s.
Proof.
  unfold protected_identifier.
  destruct (in_list s idl_keywords) eqn:E.
  - now rewrite underscore_not_keyword.
  - now rewrite E.
Qed.

(** A sanitized name is not a reserved word, so the sanitizer leaves it
    as it is. *)
Lemma protected_identifier_not_keyword (s : string) :
  in_list (protected_identifier s) idl_keywords = false.
Proof.
  unfold protected_identifier.
  destruct (in_list s idl_keywords) eqn:E;
    [apply underscore_not_keyword | exact E].
Qed.

Lemma protected_identifier_fixed (s : string) :
  protected_identifier (protected_identifier s) = protected_identifier s.
Proof.
  unfold protected_identifier at 1.
  now rewrite protected_identifier_not_keyword.
Qed.

(** ** Strings *)

Lemma append_assoc (a b c : string) : (a ++ b) ++ c = a ++ (b ++ c).
Proof. induction a as [|x a IH]; simpl; [reflexivity | now rewrite IH]. Qed.

Lemma append_nil_r (a : string) : a ++ "" = a.
Proof. induction a as [|x a IH]; simpl; [reflexivity | now rewrite IH]. Qed.

Lemma length_append (a b : string) :
  String.length (a ++ b) = String.length a + String.length b.
Proof. induction a as [|x a IH]; simpl; [reflexivity | now rewrite IH]. Qed.

Lemma append_inv_head (a b c : string) : a ++ b = a ++ c -> b = c.
Proof.
  induction a as [|x a IH]; simpl; intros H; [assumption|].
  injection H as H. now apply IH.
Qed.

Lemma substring_0_append (a b : string) :
  substring 0 (String.length a) (a ++ b) = a.
Proof.
  induction a as [|x a IH]; simpl.
  - destruct b; reflexivity.
  - now rewrite IH.
Qed.

(** [(a + b)[:-len(b)] == a]. *)
Lemma drop_last_append (a b : string) :
  drop_last (String.length b) (a ++ b) = a.
Proof.
  unfold drop_last. rewrite length_append.
  replace (String.length a + String.length b - String.length b)
    with (String.length a) by lia.
  apply substring_0_append.
Qed.

(** ** Ordered dictionaries *)

Section OrderedDictFacts.
Context {V : Type}.
Implicit Types (d : OrderedDict V) (k : string) (v : V).

Lemma od_contains_In k d : od_contains k d = true <-> In k (od_keys d).
Proof.
  induction d as [|[k' v'] d IH]; simpl.
  - split; [discriminate | tauto].
  - rewrite orb_true_iff, IH, String.eqb_eq. tauto.
Qed.

Lemma od_get_In k v d : od_get k d = Some v -> In (k, v) d.
Proof.
  induction d as [|[k' v'] d IH]; simpl; [discriminate|].
  destruct (String.eqb_spec k' k) as [->|].
  - intros [= ->]. now left.
  - intros H. right. now apply IH.
Qed.

Lemma od_get_contains k d :
  od_contains k d = match od_get k d with Some _ => true | None => false end.
Proof.
  induction d as [|[k' v'] d IH]; simpl; [reflexivity|].
  destruct (k' =? k); simpl; [reflexivity | assumption].
Qed.

Lemma In_od_set k v d k' v' :
  In (k', v') (od_set k v d) -> (k' = k /\ v' = v) \/ In (k', v') d.
Proof.
  induction d as [|[k0 v0] d IH]; simpl.
  - intros [[= <- <-]|[]]. now left.
  - destruct (String.eqb_spec k0 k) as [->|]; simpl.
    + intros [[= <- <-]|H]; [now left | right; now right].
    + intros [H|H]; [right; now left|].
      destruct (IH H) as [?|?]; [now left | right; now right].
Qed.

Lemma od_set_fresh k v d :
  od_contains k d = false -> od_set k v d = (d ++ [(k, v)])%list.
Proof.
  induction d as [|[k0 v0] d IH]; simpl; [reflexivity|].
  destruct (k0 =? k); simpl; [discriminate|].
  intros H. now rewrite IH.
Qed.

Lemma od_set_keys k v d :
  od_keys (od_set k v d) =
  if od_contains k d then od_keys d else (od_keys d ++ [k])%list.
Proof.
  induction d as [|[k0 v0] d IH]; simpl; [reflexivity|].
  destruct (k0 =? k); simpl; [reflexivity|].
  rewrite IH. now destruct (od_contains k d).
Qed.

Lemma od_contains_set k v d k' :
  od_contains k' (od_set k v d) = (k =? k') || od_contains k' d.
Proof.
  induction d as [|[k0 v0] d IH]; simpl.
  - reflexivity.
  - destruct (String.eqb_spec k0 k) as [->|Hk]; simpl.
    + now destruct (k =? k').
    + rewrite IH. destruct (k0 =? k'), (k =? k'); reflexivity.
Qed.

Lemma od_contains_app k d d' :
  od_contains k (d ++ d')%list = od_contains k d || od_contains k d'.
Proof.
  induction d as [|[k0 v0] d IH]; simpl; [reflexivity|].
  rewrite IH. now destruct (k0 =? k).
Qed.

Lemma od_get_app k d d' :
  od_get k (d ++ d')%list =
  match od_get k d with Some v => Some v | None => od_get k d' end.
Proof.
  induction d as [|[k0 v0] d IH]; simpl; [reflexivity|].
  now destruct (k0 =? k).
Qed.
End OrderedDictFacts.

(** ** The loops of the resolver *)

(** The three things one step of the [for] loop can do. *)
Lemma loop_body_cases (types : OrderedDict Type_) (finished : bool)
  (typeXml : TypeXml) :
  loop_body (types, finished) typeXml = (types, finished) \/
  (od_contains (type_Name typeXml) types = false /\
   skipType (type_Name typeXml) = false /\
   exists t, loop_body (types, finished) typeXml
               = (od_set (type_name t) t types, finished) /\
             ((type_tag typeXml = EnumeratedType_tag /\
               t = parseEnumeration typeXml) \/
              (type_tag typeXml = OpaqueType_tag /\
               t = parseOpaque typeXml) \/
              (type_tag typeXml = StructuredType_tag /\
               parseStructured types typeXml = Some t))) \/
  (od_contains (type_Name typeXml) types = false /\
   skipType (type_Name typeXml) = false /\
   type_tag typeXml = StructuredType_tag /\
   parseStructured types typeXml = None /\
   loop_body (types, finished) typeXml = (types, false)).
Proof.
  unfold loop_body.
  destruct (od_contains (type_Name typeXml) types) eqn:Hc; simpl;
    [now left|].
  destruct (skipType (type_Name typeXml)) eqn:Hs; [now left|].
  destruct (String.eqb_spec (type_tag typeXml) EnumeratedType_tag) as [He|_].
  { right; left. repeat split. exists (parseEnumeration typeXml).
    split; [reflexivity|]. now left. }
  destruct (String.eqb_spec (type_tag typeXml) OpaqueType_tag) as [Ho|_].
  { right; left. repeat split. exists (parseOpaque typeXml).
    split; [reflexivity|]. right; now left. }
  destruct (String.eqb_spec (type_tag typeXml) StructuredType_tag) as [Hst|_];
    [|now left].
  destruct (parseStructured types typeXml) as [t|] eqn:Hp.
  - right; left. repeat split. exists t. split; [reflexivity|].
    right; right. now split.
  - right; right. repeat split; assumption.
Qed.

(** A property of the registry that every step on a record satisfying [Q]
    keeps holds of whatever the resolver returns on such records. *)
Section Invariant.
Variable Q : TypeXml -> Prop.
Variable P : OrderedDict Type_ -> Prop.
Hypothesis P_step : forall types finished typeXml,
  Q typeXml -> P types -> P (fst (loop_body (types, finished) typeXml)).

Lemma fold_loop_body_invariant (typeSnippets : list TypeXml) :
  Forall Q typeSnippets ->
  forall state, P (fst state) ->
                P (fst (fold_left loop_body typeSnippets state)).
Proof.
  induction 1 as [|x l Hx Hl IH]; cbn [fold_left]; intros [types fin] H.
  - assumption.
  - apply IH. now apply P_step.
Qed.

Lemma while_loop_invariant (fuel : nat) (typeSnippets : list TypeXml) :
  Forall Q typeSnippets ->
  forall types types',
    P types -> while_loop fuel typeSnippets types = Some types' -> P types'.
Proof.
  intros HQ.
  induction fuel as [|fuel IH]; cbn [while_loop]; intros types types' H;
    [discriminate|].
  pose proof (fold_loop_body_invariant typeSnippets HQ (types, true) H) as Hp.
  fold (pass typeSnippets types) in Hp.
  destruct (pass typeSnippets types) as [types1 fin]. cbn [fst] in Hp.
  destruct fin.
  - now intros [= <-].
  - now apply IH.
Qed.

Lemma parseTypeDefinitions_invariant (fuel : nat)
  (typeSnippets : list TypeXml) (types : OrderedDict Type_) :
  Forall Q typeSnippets ->
  P initial_types ->
  parseTypeDefinitions fuel typeSnippets = Some types -> P types.
Proof. intros HQ H. now apply while_loop_invariant. Qed.
End Invariant.

(** ** Containment tests mean what their names say *)

Lemma prefix_spec (sub s : string) :
  prefix sub s = true <-> exists post, s = sub ++ post.
Proof.
  revert s. induction sub as [|a sub IH]; intros s.
  - destruct s; simpl; split; eauto.
  - destruct s as [|b s]; simpl.
    + split; [discriminate | intros [post H]; discriminate].
    + destruct (ascii_dec a b) as [->|n].
      * rewrite IH. split; intros [post H]; exists post.
        -- now subst.
        -- now injection H.
      * split; [discriminate|]. intros [post H]. injection H. congruence.
Qed.

Lemma contains_spec (sub s : string) :
  contains sub s = true <-> exists pre post, s = pre ++ sub ++ post.
Proof.
  induction s as [|c s IH]; cbn [contains]; rewrite orb_true_iff.
  - split.
    + intros [H|H]; [|discriminate].
      apply prefix_spec in H as [post H]. now exists "", post.
    + intros [pre [post H]]. left. apply prefix_spec.
      destruct pre; [now exists post | discriminate].
  - split.
    + intros [H|H].
      * apply prefix_spec in H as [post H]. now exists "", post.
      * apply IH in H as [pre [post H]]. exists (String c pre), post.
        simpl. now rewrite H.
    + intros [[|x pre] [post H]].
      * left. apply prefix_spec. now exists post.
      * right. apply IH. injection H as _ H. now exists pre, post.
Qed.

Lemma endswith_spec (suffix s : string) :
  endswith suffix s = true <-> exists pre, s = pre ++ suffix.
Proof.
  induction s as [|c s IH]; cbn [endswith]; rewrite orb_true_iff, String.eqb_eq.
  - split.
    + intros [H|H]; [now exists "" | discriminate].
    + intros [[|x pre] H]; [now left | discriminate].
  - split.
    + intros [H|H]; [now exists ""|].
      apply IH in H as [pre H]. exists (String c pre). simpl. now rewrite H.
    + intros [[|x pre] H]; [now left|].
      right. apply IH. injection H as _ H. now exists pre.
Qed.

Lemma re_search_NodeId_end_endswith (name : string) :
  re_search_NodeId_end name =
  endswith "NodeId" name || endswith ("NodeId" ++ LF) name.
Proof.
  induction name as [|c name IH].
  - reflexivity.
  - cbn [re_search_NodeId_end endswith]. rewrite IH.
    destruct (String c name =? "NodeId"), (String c name =? "NodeId" ++ LF),
      (endswith "NodeId" name), (endswith ("NodeId" ++ LF) name); reflexivity.
Qed.

Lemma skipType_iff (name : string) :
  skipType name = true <->
  (In name builtin_types \/ In name skip_types \/
   contains "Test" name = true \/
   endswith "NodeId" name = true \/ endswith ("NodeId" ++ LF) name = true).
Proof.
  unfold skipType. rewrite re_search_NodeId_end_endswith.
  rewrite <- !in_list_In.
  destruct (in_list name builtin_types); [tauto|].
  destruct (in_list name skip_types); [tauto|].
  destruct (contains "Test" name); [tauto|].
  destruct (endswith "NodeId" name); [simpl; tauto|].
  destruct (endswith ("NodeId" ++ LF) name); simpl; [tauto|].
  intuition discriminate.
Qed.

(** ** Registry entries *)

(** Escaping a reserved word never produces an excluded name. *)
Lemma keywords_escaped_not_skipped :
  forallb (fun k => negb (skipType ("_" ++ k))) idl_keywords = true.
Proof. vm_compute. reflexivity. Qed.

Lemma skipType_protected (name : string) :
  skipType name = false -> skipType (protected_identifier name) = false.
Proof.
  intros H. unfold protected_identifier.
  destruct (in_list name idl_keywords) eqn:E; [|assumption].
  apply in_list_In in E.
  pose proof keywords_escaped_not_skipped as K.
  rewrite forallb_forall in K. specialize (K _ E).
  now apply negb_true_iff in K.
Qed.

Lemma parseEnumeration_shape (typeXml : TypeXml) :
  exists description elements,
    parseEnumeration typeXml =
    EnumerationType (protected_identifier (type_Name typeXml))
      description elements.
Proof.
  unfold parseEnumeration.
  destruct (parseEnumeration_loop _ _ _ _) as [d e]. now exists d, e.
Qed.

Lemma parseStructured_shape (types : OrderedDict Type_) (typeXml : TypeXml)
  (t : Type_) :
  parseStructured types typeXml = Some t ->
  exists members,
    parse_members types (parse_lengthfields (children typeXml) [])
      (children typeXml) [] = Some members /\
    t = StructType (protected_identifier (type_Name typeXml))
          (parse_description (children typeXml) (Some "")) members.
Proof.
  unfold parseStructured.
  destruct (parse_members _ _ _ _) as [members|]; [|discriminate].
  intros [= <-]. now exists members.
Qed.

Lemma initial_types_ok : Forall entry_ok initial_types.
Proof.
  unfold initial_types. simpl.
  repeat (constructor;
          [split; [reflexivity | left; split; [simpl; tauto | reflexivity]]|]).
  constructor.
Qed.

Lemma entry_ok_new (t : Type_) (name : string) :
  skipType name = false ->
  type_name t = name \/ type_name t = protected_identifier name ->
  typedef_idl t <> None ->
  entry_ok (type_name t, t).
Proof.
  intros Hs Hn Ht. split; [reflexivity|]. right. simpl.
  destruct Hn as [-> | ->].
  - auto using skipType_protected.
  - rewrite protected_identifier_fixed. auto using skipType_protected.
Qed.

Lemma loop_body_entry_ok (types : OrderedDict Type_) (finished : bool)
  (typeXml : TypeXml) :
  Forall entry_ok types ->
  Forall entry_ok (fst (loop_body (types, finished) typeXml)).
Proof.
  intros H.
  destruct (loop_body_cases types finished typeXml)
    as [E | [(_ & Hs & t & E & Ht) | (_ & _ & _ & _ & E)]];
    rewrite E; simpl; try assumption.
  assert (Hnew : entry_ok (type_name t, t)).
  { apply entry_ok_new with (name := type_Name typeXml); [assumption | |].
    - destruct Ht as [[_ ->] | [[_ ->] | [_ Hp]]].
      + destruct (parseEnumeration_shape typeXml) as (d & e & ->). now right.
      + now left.
      + apply parseStructured_shape in Hp as (m & _ & ->). now right.
    - destruct Ht as [[_ ->] | [[_ ->] | [_ Hp]]].
      + destruct (parseEnumeration_shape typeXml) as (d & e & ->). discriminate.
      + discriminate.
      + apply parseStructured_shape in Hp as (m & _ & ->). discriminate. }
  rewrite Forall_forall in *. intros [k v] Hin.
  apply In_od_set in Hin as [[-> ->] | Hin]; [assumption | now apply H].
Qed.

Lemma parseTypeDefinitions_entry_ok (fuel : nat) (typeSnippets : list TypeXml)
  (types : OrderedDict Type_) :
  parseTypeDefinitions fuel typeSnippets = Some types ->
  Forall entry_ok types.
Proof.
  apply parseTypeDefinitions_invariant with (Q := fun _ => True).
  - intros. now apply loop_body_entry_ok.
  - apply Forall_forall. trivial.
  - exact initial_types_ok.
Qed.

(** ** Emitter loop *)

Lemma emit_types_spec (types : OrderedDict Type_) :
  forall idl,
    emit_types types idl = (idl ++ flat_map declarations (emitted types))%list.
Proof.
  unfold emit_types, emitted.
  induction types as [|[name t] types IH]; intros idl.
  - simpl. now rewrite app_nil_r.
  - cbn [fold_left filter fst]. unfold emit_body at 2.
    destruct (in_list name builtin_types); cbn [negb].
    + apply IH.
    + rewrite IH. unfold printidl, declarations.
      cbn [flat_map fst snd]. now rewrite <- !app_assoc.
Qed.

(** C5 (amended). A record is excluded exactly when its name is a builtin
    type name, is in the exclusion list, contains "Test", or ends with
    "NodeId" optionally followed by one line feed.  A step of the resolver
    on an excluded record changes nothing; in a registry the resolver
    returns, the only entry under an excluded name is the seeded builtin;
    and the document consists of the prelude, the declarations of entries
    none of whose names is excluded, and the closing line. *)
Theorem skipType_exclusion :
  (forall name,
     skipType name = true <->
     (In name builtin_types \/ In name skip_types \/
      contains "Test" name = true \/
      endswith "NodeId" name = true \/
      endswith ("NodeId" ++ LF) name = true)) /\
  (forall state typeXml,
     skipType (type_Name typeXml) = true -> loop_body state typeXml = state) /\
  (forall fuel typeSnippets types name t,
     parseTypeDefinitions fuel typeSnippets = Some types ->
     skipType name = true ->
     od_get name types = Some t ->
     In name builtin_types /\ t = BuiltinType_init name) /\
  (forall prelude fuel typeSnippets idl,
     main prelude fuel typeSnippets = Some idl ->
     exists declared,
       idl = ([prelude] ++ flat_map declarations declared ++ ["};"])%list /\
       forall name t,
         In (name, t) declared ->
         type_name t = name /\
         skipType name = false /\
         skipType (protected_identifier name) = false /\
         typedef_idl t <> None).
Proof.
  split; [exact skipType_iff|]. split; [|split].
  - intros [types finished] typeXml H. unfold loop_body.
    rewrite H, orb_true_r. reflexivity.
  - intros fuel typeSnippets types name t Hp Hs Hg.
    apply parseTypeDefinitions_entry_ok in Hp.
    rewrite Forall_forall in Hp.
    destruct (Hp _ (od_get_In _ _ _ Hg)) as [_ [H | [H _]]]; simpl in H.
    + exact H.
    + congruence.
  - intros prelude fuel typeSnippets idl. unfold main.
    destruct (parseTypeDefinitions fuel typeSnippets) as [types|] eqn:Hp;
      [|discriminate].
    intros [= <-]. exists (emitted types). split.
    + unfold printidl. rewrite emit_types_spec. reflexivity.
    + apply parseTypeDefinitions_entry_ok in Hp.
      rewrite Forall_forall in Hp.
      intros name t Hin. unfold emitted in Hin.
      apply filter_In in Hin as [Hin Hb]. cbn [fst] in Hb.
      apply negb_true_iff, in_list_not_In in Hb.
      destruct (Hp _ Hin) as [Hn [[H _] | H]]; simpl in *; tauto.
Qed.

Lemma skipType_exclusion_witness :
  skipType "MyTestType" = true /\
  loop_body (initial_types, true) excluded_example = (initial_types, true) /\
  (In "NodeId" builtin_types /\
   BuiltinType_init "NodeId" = BuiltinType_init "NodeId") /\
  exists declared,
    ["module UA {"; "};"]
    = (["module UA {"] ++ flat_map declarations declared ++ ["};"])%list /\
    forall name t,
      In (name, t) declared ->
      type_name t = name /\
      skipType name = false /\
      skipType (protected_identifier name) = false /\
      typedef_idl t <> None.
Proof.
  destruct skipType_exclusion as (H1 & H2 & H3 & H4).
  split; [|split; [|split]].
  - apply H1. right; right; left. reflexivity.
  - apply H2. reflexivity.
  - apply (H3 1 [excluded_example] initial_types); reflexivity.
  - apply (H4 "module UA {" 1 [excluded_example]). reflexivity.
Defined.

(** C5 as stated fails: with [re.search("NodeId$", name)] a name that ends
    with "NodeId" and a line feed is excluded, and it meets none of the
    four conditions. *)
Lemma skipType_trailing_newline :
  skipType ("FooNodeId" ++ LF) = true /\
  ~ (In ("FooNodeId" ++ LF) builtin_types \/
     In ("FooNodeId" ++ LF) skip_types \/
     (exists pre post, "FooNodeId" ++ LF = pre ++ "Test" ++ post) \/
     (exists pre, "FooNodeId" ++ LF = pre ++ "NodeId")).
Proof.
  split; [reflexivity|].
  rewrite <- !in_list_In, <- contains_spec, <- endswith_spec.
  vm_compute. intuition discriminate.
Qed.

(** ** Member loop of [parseStructured] *)

(** A field is a member when it is a Field element and no child names it
    as its length field. *)
Lemma parse_members_None (types : OrderedDict Type_) (lengthfields : list string)
  (f : Child) (cs : list Child) :
  In f cs ->
  tag f = Field_tag ->
  in_list (Name f) lengthfields = false ->
  od_get (stripTypename (TypeName f)) types = None ->
  forall members, parse_members types lengthfields cs members = None.
Proof.
  intros Hin Ht Hl Hg.
  induction cs as [|child cs IH]; [destruct Hin|].
  intros members. cbn [parse_members].
  destruct Hin as [-> | Hin].
  - rewrite Ht, String.eqb_refl, Hl, Hg. reflexivity.
  - destruct (negb (tag child =? Field_tag)); [now apply IH|].
    destruct (in_list (Name child) lengthfields); [now apply IH|].
    destruct (od_get (stripTypename (TypeName child)) types);
      [now apply IH | reflexivity].
Qed.

Lemma parse_members_Some (types : OrderedDict Type_) (lengthfields : list string)
  (cs : list Child) :
  (forall f, In f cs -> tag f = Field_tag ->
             in_list (Name f) lengthfields = false ->
             od_contains (stripTypename (TypeName f)) types = true) ->
  forall members,
    exists members', parse_members types lengthfields cs members = Some members'.
Proof.
  induction cs as [|child cs IH]; intros H members; cbn [parse_members].
  - now exists members.
  - assert (IH' := IH (fun f Hf => H f (or_intror Hf))).
    destruct (String.eqb_spec (tag child) Field_tag) as [Ht|_]; cbn [negb];
      [|apply IH'].
    destruct (in_list (Name child) lengthfields) eqn:Hl; [apply IH'|].
    specialize (H child (or_introl eq_refl) Ht Hl).
    rewrite od_get_contains in H.
    destruct (od_get (stripTypename (TypeName child)) types);
      [apply IH' | discriminate].
Qed.

(** ** Steps of the [for] loop *)

Lemma loop_body_known (types : OrderedDict Type_) (finished : bool)
  (typeXml : TypeXml) :
  od_contains (type_Name typeXml) types = true ->
  loop_body (types, finished) typeXml = (types, finished).
Proof. intros H. unfold loop_body. now rewrite H. Qed.

Lemma loop_body_deferred (types : OrderedDict Type_) (finished : bool)
  (typeXml : TypeXml) :
  od_contains (type_Name typeXml) types = false ->
  skipType (type_Name typeXml) = false ->
  type_tag typeXml = StructuredType_tag ->
  parseStructured types typeXml = None ->
  loop_body (types, finished) typeXml = (types, false).
Proof.
  intros Hc Hs Ht Hp. unfold loop_body. now rewrite Hc, Hs, Ht, Hp.
Qed.

Lemma loop_body_resolved (types : OrderedDict Type_) (finished : bool)
  (typeXml : TypeXml) (t : Type_) :
  od_contains (type_Name typeXml) types = false ->
  skipType (type_Name typeXml) = false ->
  type_tag typeXml = StructuredType_tag ->
  parseStructured types typeXml = Some t ->
  loop_body (types, finished) typeXml
  = (od_set (type_name t) t types, finished).
Proof.
  intros Hc Hs Ht Hp. unfold loop_body. now rewrite Hc, Hs, Ht, Hp.
Qed.

(** [finished] is only ever assigned [False] inside the [for] loop. *)
Lemma loop_body_unfinished (types : OrderedDict Type_) (typeXml : TypeXml) :
  snd (loop_body (types, false) typeXml) = false.
Proof.
  destruct (loop_body_cases types false typeXml)
    as [E | [(_ & _ & t & E & _) | (_ & _ & _ & _ & E)]];
    now rewrite E.
Qed.

Lemma fold_loop_body_unfinished (typeSnippets : list TypeXml) :
  forall types,
    snd (fold_left loop_body typeSnippets (types, false)) = false.
Proof.
  induction typeSnippets as [|x l IH]; intros types; cbn [fold_left];
    [reflexivity|].
  pose proof (loop_body_unfinished types x) as H.
  destruct (loop_body (types, false) x) as [types' fin]. simpl in H.
  subst fin. apply IH.
Qed.

(** ** A reference that nothing resolves *)

Section Unresolvable.
Variable typeSnippets : list TypeXml.
Variable R : TypeXml.
Variable f : Child.

Hypothesis R_struct : type_tag R = StructuredType_tag.
Hypothesis R_kept : skipType (type_Name R) = false.
Hypothesis R_only : forall r,
  In r typeSnippets ->
  type_Name r = type_Name R \/
    protected_identifier (type_Name r) = type_Name R ->
  r = R.
Hypothesis f_child : In f (children R).
Hypothesis f_Field : tag f = Field_tag.
Hypothesis f_member :
  in_list (Name f) (parse_lengthfields (children R) []) = false.
Hypothesis f_not_builtin :
  ~ In (stripTypename (TypeName f)) builtin_types.
Hypothesis f_undeclared : forall r,
  In r typeSnippets ->
  type_Name r <> stripTypename (TypeName f) /\
  protected_identifier (type_Name r) <> stripTypename (TypeName f).

Lemma stalled_initial : stalled R f initial_types.
Proof.
  split.
  - apply not_true_is_false. intros H. apply od_contains_In in H.
    now apply f_not_builtin.
  - unfold skipType in R_kept.
    destruct (in_list (type_Name R) builtin_types) eqn:E; [discriminate|].
    apply not_true_is_false. intros H. apply od_contains_In in H.
    apply in_list_not_In in E. now apply E.
Qed.

Lemma stalled_defers (types : OrderedDict Type_) (finished : bool) :
  stalled R f types -> loop_body (types, finished) R = (types, false).
Proof.
  intros [Hm HR]. apply loop_body_deferred; try assumption.
  unfold parseStructured. rewrite parse_members_None with (f := f); auto.
  rewrite od_get_contains in Hm.
  now destruct (od_get (stripTypename (TypeName f)) types).
Qed.

Lemma stalled_step (types : OrderedDict Type_) (finished : bool)
  (r : TypeXml) :
  In r typeSnippets ->
  stalled R f types -> stalled R f (fst (loop_body (types, finished) r)).
Proof.
  intros Hin Hst.
  destruct (loop_body_cases types finished r)
    as [E | [(_ & _ & t & E & Ht) | (_ & _ & _ & _ & E)]];
    rewrite E; cbn [fst]; try assumption.
  assert (Hn : type_name t = type_Name r \/
               type_name t = protected_identifier (type_Name r)).
  { destruct Ht as [[_ ->] | [[_ ->] | [_ Hp]]].
    - destruct (parseEnumeration_shape r) as (d & e & ->). now right.
    - now left.
    - apply parseStructured_shape in Hp as (m & _ & ->). now right. }
  destruct (f_undeclared r Hin) as [U1 U2].
  destruct Hst as [Hm HR].
  split; rewrite od_contains_set.
  - rewrite Hm, orb_false_r. apply String.eqb_neq.
    destruct Hn as [-> | ->]; assumption.
  - rewrite HR, orb_false_r. apply String.eqb_neq. intros Heq.
    assert (r = R) as -> by (apply R_only; [assumption|];
                             destruct Hn as [<- | <-]; auto).
    rewrite (stalled_defers types finished (conj Hm HR)) in E.
    injection E as E _.
    apply (f_equal (od_contains (type_name t))) in E.
    rewrite od_contains_set, String.eqb_refl in E. simpl in E.
    congruence.
Qed.

Lemma stalled_fold (l : list TypeXml) :
  (forall r, In r l -> In r typeSnippets) ->
  forall types finished,
    stalled R f types ->
    stalled R f (fst (fold_left loop_body l (types, finished))) /\
    (In R l \/ finished = false ->
     snd (fold_left loop_body l (types, finished)) = false).
Proof.
  induction l as [|r l IH]; intros Hl types finished Hst; cbn [fold_left].
  - split; [assumption|]. now intros [[]|H].
  - assert (Hr : In r typeSnippets) by (apply Hl; now left).
    pose proof (stalled_step types finished r Hr Hst) as Hst'.
    destruct (loop_body (types, finished) r) as [types' fin'] eqn:E.
    cbn [fst] in Hst'.
    destruct (IH (fun x Hx => Hl x (or_intror Hx)) types' fin' Hst')
      as [IH1 IH2].
    split; [assumption|]. intros [[-> | Hin] | ->].
    + rewrite (stalled_defers types finished Hst) in E.
      injection E as <- <-. apply fold_loop_body_unfinished.
    + apply IH2. now left.
    + pose proof (loop_body_unfinished types r) as Hu.
      rewrite E in Hu. apply IH2. now right.
Qed.

Hypothesis R_input : In R typeSnippets.

Lemma stalled_while (fuel : nat) :
  forall types, stalled R f types -> while_loop fuel typeSnippets types = None.
Proof.
  induction fuel as [|fuel IH]; intros types Hst; cbn [while_loop];
    [reflexivity|].
  destruct (stalled_fold typeSnippets (fun r H => H) types true Hst)
    as [H1 H2].
  fold (pass typeSnippets types) in H1, H2.
  destruct (pass typeSnippets types) as [types' fin]. cbn [fst snd] in *.
  rewrite H2 by now left. now apply IH.
Qed.
End Unresolvable.

(** C2 (amended). If the input contains a Structured record that is not
    excluded, whose name is the registry key of no other record, and one
    of whose member fields references a type name that is neither a builtin
    nor the name or the sanitized name of any record, then the resolver
    does not return, whatever the number of passes: every pass ends with
    [finished] false.  The script has no stall detection and no error to
    signal. *)
Theorem unresolvable_reference_never_returns
  (typeSnippets : list TypeXml) (R : TypeXml) (f : Child) :
  In R typeSnippets ->
  type_tag R = StructuredType_tag ->
  skipType (type_Name R) = false ->
  (forall r, In r typeSnippets ->
             type_Name r = type_Name R \/
               protected_identifier (type_Name r) = type_Name R ->
             r = R) ->
  In f (children R) ->
  tag f = Field_tag ->
  in_list (Name f) (parse_lengthfields (children R) []) = false ->
  ~ In (stripTypename (TypeName f)) builtin_types ->
  (forall r, In r typeSnippets ->
             type_Name r <> stripTypename (TypeName f) /\
             protected_identifier (type_Name r) <> stripTypename (TypeName f)) ->
  forall fuel, parseTypeDefinitions fuel typeSnippets = None.
Proof.
  intros HR Hs Hk Ho Hf Ht Hm Hb Hu fuel.
  apply (stalled_while typeSnippets R f); try assumption.
  now apply stalled_initial.
Qed.

Lemma unresolvable_reference_witness :
  parseTypeDefinitions 10 unresolvable_input = None.
Proof.
  apply (unresolvable_reference_never_returns unresolvable_input
           (a_StructuredType "Reading"
              [a_Documentation "A sensor reading.";
               a_Field "Source" "tns:Sensor" None;
               a_Field "Level" "opc:Double" None])
           (a_Field "Source" "tns:Sensor" None)).
  - left; reflexivity.
  - reflexivity.
  - reflexivity.
  - intros r [<- | []] _. reflexivity.
  - right; left; reflexivity.
  - reflexivity.
  - reflexivity.
  - apply in_list_not_In. reflexivity.
  - intros r [<- | []]. split; intros H; vm_compute in H; discriminate H.
Defined.

(** C2 as stated fails: on a structure whose member type nothing declares
    the resolver returns for no number of passes, so it neither terminates
    nor signals an error. *)
Lemma unresolvable_reference_hangs :
  ~ exists fuel types,
      parseTypeDefinitions fuel unresolvable_input = Some types.
Proof.
  assert (Hp : pass unresolvable_input initial_types = (initial_types, false))
    by reflexivity.
  intros [fuel [types H]]. unfold parseTypeDefinitions in H.
  induction fuel as [|fuel IH]; cbn [while_loop] in H; [discriminate|].
  rewrite Hp in H. exact (IH H).
Qed.

(** ** A forward reference between two structures *)

Lemma initial_types_keys : od_keys initial_types = builtin_types.
Proof. reflexivity. Qed.

Lemma initial_types_contains (k : string) :
  In k builtin_types -> od_contains k initial_types = true.
Proof. intros H. apply od_contains_In. now rewrite initial_types_keys. Qed.

(** C3. For the input [[B; A]] of two Structured records named "B" and
    "A", where B has a member field of type "A" (its other fields are of
    type "A" or builtin) and every field of A is of a builtin type: on the
    first pass B is deferred and A is resolved and appended, the pass ends
    unfinished; on the second pass B is resolved and appended and the pass
    ends finished; so the resolver returns after exactly two passes, with
    A at position 25 and B at position 26 of the registry. *)
Theorem forward_dependency (cb ca : list Child) :
  (exists f, In f cb /\ tag f = Field_tag /\
             in_list (Name f) (parse_lengthfields cb []) = false /\
             stripTypename (TypeName f) = "A") ->
  (forall f, In f cb -> tag f = Field_tag ->
             stripTypename (TypeName f) = "A" \/
             In (stripTypename (TypeName f)) builtin_types) ->
  (forall f, In f ca -> tag f = Field_tag ->
             In (stripTypename (TypeName f)) builtin_types) ->
  exists tA tB,
    parseStructured initial_types (a_StructuredType "B" cb) = None /\
    parseStructured initial_types (a_StructuredType "A" ca) = Some tA /\
    pass [a_StructuredType "B" cb; a_StructuredType "A" ca] initial_types
    = ((initial_types ++ [("A", tA)])%list, false) /\
    parseStructured (initial_types ++ [("A", tA)])%list
      (a_StructuredType "B" cb) = Some tB /\
    pass [a_StructuredType "B" cb; a_StructuredType "A" ca]
      (initial_types ++ [("A", tA)])%list
    = ((initial_types ++ [("A", tA); ("B", tB)])%list, true) /\
    parseTypeDefinitions 1 [a_StructuredType "B" cb; a_StructuredType "A" ca]
    = None /\
    (forall fuel,
       parseTypeDefinitions (2 + fuel)
         [a_StructuredType "B" cb; a_StructuredType "A" ca]
       = Some (initial_types ++ [("A", tA); ("B", tB)])%list) /\
    od_index "A" (initial_types ++ [("A", tA); ("B", tB)])%list = Some 25 /\
    od_index "B" (initial_types ++ [("A", tA); ("B", tB)])%list = Some 26.
Proof.
  intros (f & Hf & Hft & Hfm & HfA) HB HA.
  set (B := a_StructuredType "B" cb). set (A := a_StructuredType "A" ca).
  (* pass 1 *)
  assert (HpB1 : parseStructured initial_types B = None).
  { unfold parseStructured. cbn [B a_StructuredType children].
    rewrite parse_members_None with (f := f); auto.
    now rewrite HfA. }
  destruct (parse_members_Some initial_types (parse_lengthfields ca []) ca)
    with (members := @nil (string * StructMember)) as [mA HmA].
  { intros g Hg Hgt _. apply initial_types_contains. now apply HA. }
  set (tA := StructType "A" (parse_description ca (Some "")) mA).
  assert (HpA1 : parseStructured initial_types A = Some tA).
  { unfold parseStructured. cbn [A a_StructuredType children]. now rewrite HmA. }
  set (T1 := (initial_types ++ [("A", tA)])%list).
  assert (Hpass1 : pass [B; A] initial_types = (T1, false)).
  { unfold pass. cbn [fold_left].
    rewrite (loop_body_deferred initial_types true B) by (reflexivity || exact HpB1).
    rewrite (loop_body_resolved initial_types false A tA)
      by (reflexivity || exact HpA1).
    cbn [type_name tA]. now rewrite od_set_fresh by reflexivity. }
  (* pass 2 *)
  destruct (parse_members_Some T1 (parse_lengthfields cb []) cb)
    with (members := @nil (string * StructMember)) as [mB HmB].
  { intros g Hg Hgt _. unfold T1. rewrite od_contains_app.
    destruct (HB g Hg Hgt) as [-> | Hb].
    - apply orb_true_r.
    - now rewrite initial_types_contains. }
  set (tB := StructType "B" (parse_description cb (Some "")) mB).
  assert (HpB2 : parseStructured T1 B = Some tB).
  { unfold parseStructured. cbn [B a_StructuredType children]. now rewrite HmB. }
  set (T2 := (initial_types ++ [("A", tA); ("B", tB)])%list).
  assert (HT2 : (T1 ++ [("B", tB)])%list = T2).
  { unfold T1, T2. now rewrite <- app_assoc. }
  assert (Hpass2 : pass [B; A] T1 = (T2, true)).
  { unfold pass. cbn [fold_left].
    rewrite (loop_body_resolved T1 true B tB) by (reflexivity || exact HpB2).
    cbn [type_name tB]. rewrite od_set_fresh by reflexivity. rewrite HT2.
    now rewrite loop_body_known by reflexivity. }
  exists tA, tB. fold T1 T2.
  repeat split; try assumption; try reflexivity.
  - unfold parseTypeDefinitions. cbn [while_loop]. now rewrite Hpass1.
  - intros fuel. unfold parseTypeDefinitions. cbn [while_loop plus].
    now rewrite Hpass1, Hpass2.
Qed.

Lemma forward_dependency_witness :
  exists tA tB,
    pass [a_StructuredType "B" [a_Field "Part" "tns:A" None];
          a_StructuredType "A" [a_Field "Id" "opc:UInt32" None]]
      initial_types
    = ((initial_types ++ [("A", tA)])%list, false) /\
    parseTypeDefinitions 2
      [a_StructuredType "B" [a_Field "Part" "tns:A" None];
       a_StructuredType "A" [a_Field "Id" "opc:UInt32" None]]
    = Some (initial_types ++ [("A", tA); ("B", tB)])%list.
Proof.
  destruct (forward_dependency
              [a_Field "Part" "tns:A" None]
              [a_Field "Id" "opc:UInt32" None])
    as (tA & tB & _ & _ & H1 & _ & _ & _ & H2 & _).
  - exists (a_Field "Part" "tns:A" None).
    split; [now left | repeat split; reflexivity].
  - intros f [<- | []] _. left. reflexivity.
  - intros f [<- | []] _. vm_compute. tauto.
  - exists tA, tB. split; [exact H1 | exact (H2 0)].
Defined.

(** ** Enumerations *)

Lemma drop_last_3 (a b : string) :
  String.length b = 3 -> drop_last 3 (a ++ b) = a.
Proof. intros <-. apply drop_last_append. Qed.

Lemma parseEnumeration_loop_keys (name : string) (cs : list Child) :
  forall description elements,
    NoDup (od_keys elements ++
           map (qualified_name name)
             (filter (fun c => tag c =? EnumeratedValue_tag) cs))%list ->
    od_keys (snd (parseEnumeration_loop name cs description elements))
    = (od_keys elements ++
       map (qualified_name name)
         (filter (fun c => tag c =? EnumeratedValue_tag) cs))%list.
Proof.
  induction cs as [|child cs IH]; intros description elements;
    cbn [parseEnumeration_loop filter].
  - cbn [map snd]. now rewrite app_nil_r.
  - destruct (tag child =? EnumeratedValue_tag); cbn [map]; intros Hnd.
    + fold (qualified_name name child).
      assert (Hfresh : od_contains (qualified_name name child) elements = false).
      { apply not_true_is_false. intros H. apply od_contains_In in H.
        apply NoDup_remove_2 in Hnd. apply Hnd, in_or_app. now left. }
      assert (Hk : od_keys (od_set (qualified_name name child) (Value child)
                              elements)
                   = (od_keys elements ++ [qualified_name name child])%list)
        by now rewrite od_set_keys, Hfresh.
      rewrite IH; rewrite Hk, <- app_assoc; [reflexivity | exact Hnd].
    + now apply IH.
Qed.

Lemma enum_lines_fold (els : list string) :
  els <> [] ->
  forall tdef,
    fold_left
      (fun tdef el => tdef ++ TAB ++ TAB ++ protected_identifier el ++ ", " ++ LF)
      els tdef
    = (tdef ++
       String.concat (", " ++ LF)
         (map (fun l => TAB ++ TAB ++ l) (map protected_identifier els)))
      ++ ", " ++ LF.
Proof.
  induction els as [|el els IH]; [congruence|]. intros _ tdef.
  cbn [fold_left]. destruct els as [|el' els].
  - cbn [fold_left map String.concat]. now rewrite !append_assoc.
  - rewrite IH by discriminate.
    cbn [map String.concat]. now rewrite !append_assoc.
Qed.

Lemma EnumerationType_typedef_idl_labels (name : string)
  (elements : OrderedDict (option string)) :
  EnumerationType_typedef_idl name elements
  = enum_declaration name (map protected_identifier (od_keys elements)).
Proof.
  unfold EnumerationType_typedef_idl, enum_declaration.
  destruct (od_keys elements) as [|el els] eqn:E.
  - cbn [fold_left map].
    replace (TAB ++ "enum " ++ name ++ " {" ++ LF)
      with ((TAB ++ "enum " ++ name) ++ " {" ++ LF)
      by now rewrite !append_assoc.
    rewrite drop_last_3 by reflexivity.
    now rewrite !append_assoc.
  - rewrite enum_lines_fold by discriminate.
    rewrite drop_last_3 by reflexivity.
    cbn [map]. now rewrite !append_assoc.
Qed.

Lemma qualified_name_NoDup (name : string) (cs : list Child) :
  NoDup (map Name cs) -> NoDup (map (qualified_name name) cs).
Proof.
  induction cs as [|c cs IH]; cbn [map]; intros H; [constructor|].
  inversion H as [|? ? Hnotin Hnd]; subst. constructor; [|now apply IH].
  intros Hin. apply Hnotin.
  apply in_map_iff in Hin as (c' & Heq & Hc').
  unfold qualified_name in Heq. apply append_inv_head in Heq.
  injection Heq as Heq. rewrite <- Heq. now apply in_map.
Qed.

Lemma parseEnumeration_declaration (typeXml : TypeXml) :
  NoDup (map Name (EnumeratedValues typeXml)) ->
  typedef_idl (parseEnumeration typeXml)
  = Some (enum_declaration (protected_identifier (type_Name typeXml))
            (map (fun n => protected_identifier (type_Name typeXml ++ "_" ++ n))
               (map Name (EnumeratedValues typeXml)))).
Proof.
  intros Hnd. unfold parseEnumeration.
  assert (Hk : od_keys (snd (parseEnumeration_loop (type_Name typeXml)
                               (children typeXml) (Some "") []))
               = map (qualified_name (type_Name typeXml))
                   (EnumeratedValues typeXml)).
  { apply (parseEnumeration_loop_keys _ _ (Some "") []).
    now apply qualified_name_NoDup. }
  destruct (parseEnumeration_loop _ _ _ _) as [description elements].
  cbn [snd] in Hk. cbn [EnumerationType_init typedef_idl].
  rewrite EnumerationType_typedef_idl_labels, Hk.
  now rewrite !map_map.
Qed.

(** C7 (amended). For every enumeration record whose n EnumeratedValue
    children have pairwise distinct names, the declaration is the enum
    declaration with exactly n case labels, in document order, the label
    of an element being the sanitized [TypeName_ElementName]; and a record
    with the same name and the same element names gets the same
    declaration whatever the values are. *)
Theorem enumeration_labels (typeXml : TypeXml) :
  NoDup (map Name (EnumeratedValues typeXml)) ->
  typedef_idl (parseEnumeration typeXml)
  = Some (enum_declaration (protected_identifier (type_Name typeXml))
            (map (fun n => protected_identifier (type_Name typeXml ++ "_" ++ n))
               (map Name (EnumeratedValues typeXml)))) /\
  List.length
    (map (fun n => protected_identifier (type_Name typeXml ++ "_" ++ n))
       (map Name (EnumeratedValues typeXml)))
  = List.length (EnumeratedValues typeXml) /\
  (forall typeXml',
     type_Name typeXml' = type_Name typeXml ->
     map Name (EnumeratedValues typeXml')
     = map Name (EnumeratedValues typeXml) ->
     typedef_idl (parseEnumeration typeXml')
     = typedef_idl (parseEnumeration typeXml)).
Proof.
  intros Hnd. split; [now apply parseEnumeration_declaration|]. split.
  - now rewrite !length_map.
  - intros typeXml' Hn He.
    rewrite (parseEnumeration_declaration typeXml) by assumption.
    rewrite (parseEnumeration_declaration typeXml') by now rewrite He.
    now rewrite Hn, He.
Qed.

Lemma enumeration_labels_witness :
  typedef_idl (parseEnumeration Color_example)
  = Some (TAB ++ "enum Color {" ++ LF
              ++ TAB ++ TAB ++ "Color_Red, " ++ LF
              ++ TAB ++ TAB ++ "Color_Green, " ++ LF
              ++ TAB ++ TAB ++ "Color_Blue" ++ LF
              ++ TAB ++ "};").
Proof.
  refine (proj1 (enumeration_labels Color_example _)).
  repeat constructor; simpl; intuition discriminate.
Defined.

(** C7 as stated fails: of an enumeration that declares three elements,
    two of them under one name, the declaration has two case labels. *)
Lemma repeated_element_loses_a_label :
  List.length (EnumeratedValues repeated_element_example) = 3 /\
  typedef_idl (parseEnumeration repeated_element_example)
  = Some (enum_declaration "Switch" ["Switch_Off"; "Switch_On"]).
Proof. split; reflexivity. Qed.

(** ** Structures *)

Lemma parse_lengthfields_acc (cs : list Child) :
  forall lengthfields lf,
    In lf lengthfields -> In lf (parse_lengthfields cs lengthfields).
Proof.
  induction cs as [|child cs IH]; intros lengthfields lf H;
    cbn [parse_lengthfields]; [assumption|].
  apply IH. destruct (truthy (LengthField child)); [|assumption].
  destruct (LengthField child); [|assumption].
  apply in_or_app. now left.
Qed.

Lemma parse_lengthfields_In (cs : list Child) (g : Child) (lf : string) :
  In g cs -> LengthField g = Some lf -> lf <> "" ->
  forall lengthfields, In lf (parse_lengthfields cs lengthfields).
Proof.
  intros Hg Hlf Hne.
  induction cs as [|child cs IH]; [destruct Hg|].
  intros lengthfields. cbn [parse_lengthfields].
  destruct Hg as [-> | Hg]; [|now apply IH].
  rewrite Hlf. cbn [truthy].
  apply String.eqb_neq in Hne. rewrite Hne. cbn [negb].
  apply parse_lengthfields_acc, in_or_app. right. now left.
Qed.

Lemma parse_members_spec (types : OrderedDict Type_) (lengthfields : list string)
  (cs : list Child) :
  forall members members',
    parse_members types lengthfields cs members = Some members' ->
    NoDup (od_keys members ++ map Name (filter (is_member lengthfields) cs)) ->
    exists tys,
      Forall2 (fun c ty => od_get (stripTypename (TypeName c)) types = Some ty)
        (filter (is_member lengthfields) cs) tys /\
      members' = (members ++
                  map (fun p => member_of (fst p) (snd p))
                    (combine (filter (is_member lengthfields) cs) tys))%list.
Proof.
  induction cs as [|child cs IH]; intros members members';
    cbn [parse_members filter].
  - intros [= <-] _. exists []. split; [constructor|].
    cbn [combine map]. now rewrite app_nil_r.
  - assert (Hm : is_member lengthfields child
                 = (tag child =? Field_tag)
                   && negb (in_list (Name child) lengthfields))
      by reflexivity.
    rewrite Hm. clear Hm.
    destruct (tag child =? Field_tag); cbn [negb andb]; [|now apply IH].
    destruct (in_list (Name child) lengthfields); cbn [negb]; [now apply IH|].
    destruct (od_get (stripTypename (TypeName child)) types) as [ty|] eqn:Hty;
      [|discriminate].
    cbn [map]. intros Hpm Hnd.
    assert (Hfresh : od_contains (Name child) members = false).
    { apply not_true_is_false. intros H. apply od_contains_In in H.
      apply NoDup_remove_2 in Hnd. apply Hnd, in_or_app. now left. }
    rewrite od_set_fresh in Hpm by assumption.
    apply IH in Hpm as (tys & Hf2 & ->).
    + exists (ty :: tys). split; [now constructor|].
      cbn [combine map fst snd]. rewrite <- app_assoc. cbn [app].
      unfold member_of at 2. now destruct (truthy (LengthField child)).
    + unfold od_keys in *. rewrite map_app, <- app_assoc. exact Hnd.
Qed.

Lemma struct_lines_fold (members : list StructMember) :
  forall tdef,
    fold_left
      (fun tdef member =>
         if isArray member
         then tdef ++ TAB ++ TAB ++ "ListOf" ++ type_name (memberType member)
                   ++ " " ++ member_name member ++ ";" ++ LF
         else tdef ++ TAB ++ TAB ++ type_name (memberType member)
                   ++ " " ++ member_name member ++ ";" ++ LF)
      members tdef
    = tdef ++
      fold_right append ""
        (map (fun m => field_declaration (isArray m)
                         (type_name (memberType m)) (member_name m))
           members).
Proof.
  induction members as [|m members IH]; intros tdef; cbn [fold_left map fold_right].
  - now rewrite append_nil_r.
  - rewrite IH. unfold field_declaration.
    destruct (isArray m); now rewrite !append_assoc.
Qed.

(** What the first loop of [parseStructured] collects: a name is in the
    list exactly when it was there before or some child names it as its
    length field. *)
Lemma parse_lengthfields_in (cs : list Child) (name : string) :
  forall lengthfields,
    in_list name (parse_lengthfields cs lengthfields)
    = in_list name lengthfields ||
      existsb (fun g => names_length_field g name) cs.
Proof.
  induction cs as [|child cs IH]; intros lengthfields;
    cbn [parse_lengthfields existsb].
  - now rewrite orb_false_r.
  - rewrite IH, orb_assoc. f_equal.
    unfold names_length_field.
    destruct (LengthField child) as [lf|]; cbn [truthy].
    + destruct (lf =? ""); cbn [negb andb]; [now rewrite orb_false_r|].
      unfold in_list. rewrite existsb_app. cbn [existsb].
      now rewrite orb_false_r, (String.eqb_sym name lf).
    + now rewrite orb_false_r.
Qed.

(** The members the code keeps are the remaining fields of the record. *)
Lemma member_fields_remaining (typeXml : TypeXml) :
  member_fields typeXml = remaining_fields typeXml.
Proof.
  unfold member_fields, remaining_fields. apply filter_ext. intros c.
  unfold is_member. now rewrite parse_lengthfields_in.
Qed.

Lemma names_length_field_spec (g : Child) (name : string) :
  names_length_field g name = true <->
  LengthField g = Some name /\ name <> "".
Proof.
  unfold names_length_field. destruct (LengthField g) as [lf|].
  - rewrite andb_true_iff, negb_true_iff, String.eqb_eq, String.eqb_neq.
    split.
    + intros [Hne ->]. now split.
    + intros [[= ->] Hne]. now split.
  - split; [discriminate | intros [H _]; discriminate H].
Qed.

Lemma remaining_fields_spec (typeXml : TypeXml) (f : Child) :
  In f (remaining_fields typeXml) <->
  In f (children typeXml) /\ tag f = Field_tag /\
  ~ exists g, In g (children typeXml) /\
              LengthField g = Some (Name f) /\ Name f <> "".
Proof.
  unfold remaining_fields.
  rewrite filter_In, andb_true_iff, String.eqb_eq, negb_true_iff.
  split.
  - intros (Hin & Ht & Hno). repeat split; try assumption.
    intros (g & Hg & Hlf). apply names_length_field_spec in Hlf.
    assert (He : existsb (fun g => names_length_field g (Name f))
                   (children typeXml) = true)
      by (apply existsb_exists; now exists g).
    congruence.
  - intros (Hin & Ht & Hno). repeat split; try assumption.
    apply not_true_is_false. intros He.
    apply existsb_exists in He as (g & Hg & Hlf).
    apply names_length_field_spec in Hlf. apply Hno. now exists g.
Qed.

(** The members of a resolved structure, by the list the code collects. *)
Lemma parseStructured_member_fields (types : OrderedDict Type_)
  (typeXml : TypeXml) (t : Type_) :
  parseStructured types typeXml = Some t ->
  NoDup (map Name (member_fields typeXml)) ->
  exists tys,
    Forall2 (fun c ty => od_get (stripTypename (TypeName c)) types = Some ty)
      (member_fields typeXml) tys /\
    t = StructType (protected_identifier (type_Name typeXml))
          (parse_description (children typeXml) (Some ""))
          (map (fun p => member_of (fst p) (snd p))
             (combine (member_fields typeXml) tys)) /\
    typedef_idl t
    = Some (struct_declaration (protected_identifier (type_Name typeXml))
              (map (fun p => member_declaration (fst p) (snd p))
                 (combine (member_fields typeXml) tys))).
Proof.
  intros Hp Hnd.
  apply parseStructured_shape in Hp as (members & Hm & ->).
  apply parse_members_spec in Hm as (tys & Hf2 & ->); [|exact Hnd].
  exists tys. fold (member_fields typeXml) in *. cbn [app].
  repeat split; [assumption|].
  cbn [typedef_idl]. unfold StructType_typedef_idl, struct_declaration.
  rewrite struct_lines_fold. unfold od_values. rewrite !map_map.
  cbn [snd member_of StructMember_init isArray memberType member_name].
  unfold member_declaration. now rewrite !append_assoc.
Qed.

(** C6 (amended). For a Structured record that [parseStructured] resolves
    and whose remaining fields have pairwise distinct names.  The remaining
    fields are the Field children that no child of the record names as its
    non-empty LengthField: every field so named is elided, every other
    Field is kept.  The members of the structure are exactly the remaining
    fields, in document order, each under its name, with its sanitized
    name, the registry type its stripped TypeName denotes, and [isArray]
    set exactly when its own LengthField is non-empty; and the declaration
    has one line per remaining field,
    [ListOf<MemberType> <MemberName>] for an array and
    [<MemberType> <MemberName>] otherwise. *)
Theorem structure_members (types : OrderedDict Type_) (typeXml : TypeXml)
  (t : Type_) :
  parseStructured types typeXml = Some t ->
  NoDup (map Name (remaining_fields typeXml)) ->
  (forall f,
     In f (remaining_fields typeXml) <->
     In f (children typeXml) /\ tag f = Field_tag /\
     ~ exists g, In g (children typeXml) /\
                 LengthField g = Some (Name f) /\ Name f <> "") /\
  (forall g lf,
     In g (children typeXml) -> LengthField g = Some lf -> lf <> "" ->
     ~ In lf (map Name (remaining_fields typeXml))) /\
  exists tys,
    Forall2 (fun c ty => od_get (stripTypename (TypeName c)) types = Some ty)
      (remaining_fields typeXml) tys /\
    t = StructType (protected_identifier (type_Name typeXml))
          (parse_description (children typeXml) (Some ""))
          (map (fun p => member_of (fst p) (snd p))
             (combine (remaining_fields typeXml) tys)) /\
    typedef_idl t
    = Some (struct_declaration (protected_identifier (type_Name typeXml))
              (map (fun p => member_declaration (fst p) (snd p))
                 (combine (remaining_fields typeXml) tys))).
Proof.
  intros Hp Hnd. split; [apply remaining_fields_spec|]. split.
  - intros g lf Hg Hlf Hne Hin.
    apply in_map_iff in Hin as (f & <- & Hf).
    apply remaining_fields_spec in Hf as (_ & _ & Hno).
    apply Hno. now exists g.
  - rewrite <- member_fields_remaining in *.
    now apply parseStructured_member_fields.
Qed.

Lemma structure_members_witness :
  remaining_fields array_field_example
  = [a_Field "Values" "opc:Double" (Some "NoOfValues");
     a_Field "Unit" "opc:String" None] /\
  ~ In "NoOfValues" (map Name (remaining_fields array_field_example)) /\
  exists t tys,
    parseStructured initial_types array_field_example = Some t /\
    typedef_idl t
    = Some (struct_declaration "Series"
              (map (fun p => member_declaration (fst p) (snd p))
                 (combine
                    [a_Field "Values" "opc:Double" (Some "NoOfValues");
                     a_Field "Unit" "opc:String" None]
                    tys))).
Proof.
  destruct (parseStructured initial_types array_field_example) as [t|] eqn:E;
    [|vm_compute in E; discriminate E].
  destruct (structure_members initial_types array_field_example t E)
    as (_ & Helided & tys & _ & _ & Hidl).
  - repeat constructor; simpl; intuition discriminate.
  - split; [reflexivity|]. split.
    + apply (Helided (a_Field "Values" "opc:Double" (Some "NoOfValues"))).
      * right; right; left; reflexivity.
      * reflexivity.
      * discriminate.
    + exists t, tys. split; [reflexivity | exact Hidl].
Defined.

(** C6 as stated fails: of the three remaining fields of this record the
    declaration shows two.  "Flags" carries a LengthField attribute, an
    empty one, and is not rendered as a list; the first "Value" has none
    and its line is replaced by that of the second "Value". *)
Lemma repeated_field_overwrites :
  map Name (remaining_fields repeated_field_example)
  = ["Flags"; "Value"; "Value"] /\
  exists t,
    parseStructured initial_types repeated_field_example = Some t /\
    typedef_idl t
    = Some (struct_declaration "Sample"
              [field_declaration false "Byte" "Flags";
               field_declaration true "Double" "Value"]).
Proof.
  split; [reflexivity|]. eexists. split; reflexivity.
Qed.

(** ** Records named by a reserved word *)

(** C1 fails on the code.  Both "struct" records are filed under
    "_struct": the loop tests [name in types] with the name as read and
    stores under the sanitized name, so the third record is parsed although
    its key is taken, and it replaces the first entry in place, ahead of
    the "A" it refers to. *)
Theorem reserved_name_breaks_order :
  exists tS tA,
    parseTypeDefinitions 1 reserved_name_twice
    = Some (initial_types ++ [("_struct", tS); ("A", tA)])%list /\
    referenced_types tS = ["A"] /\
    od_index "_struct" (initial_types ++ [("_struct", tS); ("A", tA)])%list
    = Some 25 /\
    od_index "A" (initial_types ++ [("_struct", tS); ("A", tA)])%list
    = Some 26 /\
    defined_in_order []
      (initial_types ++ [("_struct", tS); ("A", tA)])%list = false.
Proof. do 2 eexists. repeat split; reflexivity. Qed.

(** C4 fails on the code.  For an opaque type named "string" the typedef
    declares [_string], and the list wrapper is written with the registry
    key: it is named [ListOfstring] and its elements are [string]. *)
Theorem reserved_opaque_name_half_sanitized :
  main "module UA {" 1 reserved_opaque
  = Some ["module UA {";
          TAB ++ "typedef ByteString _string;";
          TAB ++ "union ListOfstring switch(boolean) "
              ++ "{ case true: sequence<string> Content; };" ++ LF;
          "};"] /\
  protected_identifier "string" = "_string".
Proof. split; reflexivity. Qed.

(** C9 fails on the code.  The second "switch" record is parsed although
    "_switch" is in the registry, and its type replaces the entry; under a
    name that is not reserved the second record is skipped and the entry
    stays. *)
Theorem reserved_name_entry_replaced :
  (exists t1 t2,
     pass [an_EnumeratedType "switch"
             [an_EnumeratedValue "Off" "0"; an_EnumeratedValue "On" "1"]]
       initial_types
     = ((initial_types ++ [("_switch", t1)])%list, true) /\
     parseTypeDefinitions 1 switch_twice
     = Some (initial_types ++ [("_switch", t2)])%list /\
     od_keys (elements_of t1) = ["switch_Off"; "switch_On"] /\
     od_keys (elements_of t2) = ["switch_Low"; "switch_High"] /\
     t1 <> t2) /\
  (exists t1,
     pass [an_EnumeratedType "Toggle"
             [an_EnumeratedValue "Off" "0"; an_EnumeratedValue "On" "1"]]
       initial_types
     = ((initial_types ++ [("Toggle", t1)])%list, true) /\
     parseTypeDefinitions 1 Toggle_twice
     = Some (initial_types ++ [("Toggle", t1)])%list).
Proof.
  split.
  - do 2 eexists. repeat split; try reflexivity. discriminate.
  - eexists. split; reflexivity.
Qed.

(** ** Records filed under their own name

    Where no Enumeration or Structured record is named by a reserved word
    the guard [name in types] does its work: the registry is only ever
    extended at its end, and it is in definition order. *)

Lemma protected_identifier_id (s : string) :
  in_list s idl_keywords = false -> protected_identifier s = s.
Proof. intros H. unfold protected_identifier. now rewrite H. Qed.

Lemma loop_body_appends (types : OrderedDict Type_) (finished : bool)
  (typeXml : TypeXml) :
  filed_under_own_name typeXml ->
  fst (loop_body (types, finished) typeXml) = types \/
  exists t,
    fst (loop_body (types, finished) typeXml)
    = (types ++ [(type_Name typeXml, t)])%list /\
    type_name t = type_Name typeXml /\
    (parseStructured types typeXml = Some t \/ referenced_types t = []).
Proof.
  intros Hown.
  destruct (loop_body_cases types finished typeXml)
    as [E | [(Hc & _ & t & E & Ht) | (_ & _ & _ & _ & E)]];
    rewrite E; cbn [fst]; [now left | | now left].
  right. exists t.
  assert (Hn : type_name t = type_Name typeXml /\
               (parseStructured types typeXml = Some t \/
                referenced_types t = [])).
  { destruct Ht as [[Hg ->] | [[_ ->] | [Hg Hp]]].
    - destruct (parseEnumeration_shape typeXml) as (d & e & ->).
      split; [|now right]. cbn [type_name].
      destruct Hown as [Hk | Ho].
      + now apply protected_identifier_id.
      + rewrite Hg in Ho. discriminate Ho.
    - split; [reflexivity | now right].
    - split; [|now left].
      destruct (parseStructured_shape _ _ _ Hp) as (m & _ & ->).
      cbn [type_name]. destruct Hown as [Hk | Ho].
      + now apply protected_identifier_id.
      + rewrite Hg in Ho. discriminate Ho. }
  destruct Hn as [Hn Hr]. repeat split; try assumption.
  now rewrite Hn, od_set_fresh.
Qed.

Lemma fold_loop_body_appends (typeSnippets : list TypeXml) :
  Forall filed_under_own_name typeSnippets ->
  forall types finished,
    exists new,
      fst (fold_left loop_body typeSnippets (types, finished))
      = (types ++ new)%list.
Proof.
  induction 1 as [|x l Hx Hl IH]; intros types finished; cbn [fold_left].
  - exists []. cbn [fst]. now rewrite app_nil_r.
  - destruct (loop_body (types, finished) x) as [types' fin'] eqn:E.
    destruct (IH types' fin') as [new Hnew]. rewrite Hnew.
    destruct (loop_body_appends types finished x Hx) as [H | (t & H & _)];
      rewrite E in H; cbn [fst] in H; subst types'.
    + now exists new.
    + exists ((type_Name x, t) :: new). now rewrite <- app_assoc.
Qed.








(** ** Keys of the registry and the sanitizer

    The list wrapper is written with the registry key.  For enumerations
    and structures that key is the sanitized name; only an opaque type can
    sit under a reserved word. *)

Lemma initial_types_sanitized : Forall sanitized_key initial_types.
Proof.
  unfold initial_types. simpl.
  repeat (constructor; [right; reflexivity|]). constructor.
Qed.

Lemma loop_body_sanitized (types : OrderedDict Type_) (finished : bool)
  (typeXml : TypeXml) :
  Forall sanitized_key types ->
  Forall sanitized_key (fst (loop_body (types, finished) typeXml)).
Proof.
  intros H.
  destruct (loop_body_cases types finished typeXml)
    as [E | [(_ & _ & t & E & Ht) | (_ & _ & _ & _ & E)]];
    rewrite E; cbn [fst]; try assumption.
  assert (Hnew : sanitized_key (type_name t, t)).
  { destruct Ht as [[_ ->] | [[_ ->] | [_ Hp]]].
    - destruct (parseEnumeration_shape typeXml) as (d & e & ->).
      right. apply protected_identifier_fixed.
    - left. now eexists.
    - apply parseStructured_shape in Hp as (m & _ & ->).
      right. apply protected_identifier_fixed. }
  rewrite Forall_forall in *. intros [k v] Hin.
  apply In_od_set in Hin as [[-> ->] | Hin]; [assumption | now apply H].
Qed.

(** X15. In every registry the resolver returns, the key of every entry
    other than an opaque type is in sanitized form: applying the sanitizer
    to it changes nothing. *)
Lemma registry_keys_sanitized (fuel : nat) (typeSnippets : list TypeXml)
  (types : OrderedDict Type_) :
  parseTypeDefinitions fuel typeSnippets = Some types ->
  Forall sanitized_key types.
Proof.
  apply parseTypeDefinitions_invariant with (Q := fun _ => True).
  - intros. now apply loop_body_sanitized.
  - apply Forall_forall. trivial.
  - exact initial_types_sanitized.
Qed.

(** * Further properties of the script *)

(** ** [stripTypename] *)

Lemma index_colon_none (s : string) :
  contains ":" s = false -> index 0 ":" s = None.
Proof.
  induction s as [|c s IH]; [reflexivity|].
  cbn [contains index]. intros H. apply orb_false_iff in H as [Hp Hc].
  rewrite Hp, (IH Hc). reflexivity.
Qed.

Lemma index_colon_app (pre rest : string) :
  contains ":" pre = false ->
  index 0 ":" (pre ++ ":" ++ rest) = Some (String.length pre).
Proof.
  induction pre as [|c pre IH]; [now destruct rest|].
  cbn [contains]. intros H. apply orb_false_iff in H as [Hp Hc].
  change (String c pre ++ ":" ++ rest) with (String c (pre ++ ":" ++ rest)).
  cbn [index String.length].
  assert (Hp' : prefix ":" (String c (pre ++ ":" ++ rest)) = false).
  { destruct (prefix ":" (String c (pre ++ ":" ++ rest))) eqn:E; [|reflexivity].
    apply prefix_spec in E as [post E]. injection E as -> _.
    assert (Ht : prefix ":" (String ":" pre) = true)
      by (apply prefix_spec; now exists pre).
    congruence. }
  rewrite Hp', (IH Hc). reflexivity.
Qed.

Lemma substring_skip (a b : string) (m : nat) :
  substring (String.length a) m (a ++ b) = substring 0 m b.
Proof. induction a as [|c a IH]; [reflexivity | exact IH]. Qed.

Lemma substring_all (b : string) : substring 0 (String.length b) b = b.
Proof. induction b as [|c b IH]; simpl; [reflexivity | now rewrite IH]. Qed.

(** X1. [stripTypename] leaves a type name without a colon as it is, and
    cuts a name of the form [prefix:rest], where the prefix has no colon,
    down to [rest]: only the first colon counts. *)
Theorem stripTypename_first_colon :
  (forall tn, contains ":" tn = false -> stripTypename tn = tn) /\
  (forall pre rest,
     contains ":" pre = false -> stripTypename (pre ++ ":" ++ rest) = rest).
Proof.
  split.
  - intros tn H. unfold stripTypename. now rewrite index_colon_none.
  - intros pre rest H. unfold stripTypename. rewrite index_colon_app by assumption.
    rewrite <- append_assoc.
    replace (String.length pre + 1) with (String.length (pre ++ ":"))
      by (rewrite length_append; reflexivity).
    rewrite substring_skip, length_append.
    replace (String.length (pre ++ ":") + String.length rest
             - String.length (pre ++ ":")) with (String.length rest) by lia.
    apply substring_all.
Qed.

Lemma stripTypename_first_colon_witness :
  stripTypename "Int32" = "Int32" /\ stripTypename "opc:a:b" = "a:b".
Proof.
  split.
  - apply (proj1 stripTypename_first_colon). reflexivity.
  - apply (proj2 stripTypename_first_colon "opc" "a:b"). reflexivity.
Defined.

(** ** [typeReady] *)

Lemma typeReady_loop_spec (types : OrderedDict Type_) (cs : list Child) :
  typeReady_loop types cs = true <->
  forall f, In f cs -> tag f = Field_tag ->
            od_contains (stripTypename (TypeName f)) types = true.
Proof.
  induction cs as [|child cs IH]; cbn [typeReady_loop].
  - split; [intros _ f [] | reflexivity].
  - destruct (String.eqb_spec (tag child) Field_tag) as [Ht|Ht].
    + destruct (od_contains (stripTypename (TypeName child)) types) eqn:Hc;
        cbn [negb].
      * rewrite IH. split.
        -- intros H f [<- | Hf] Hft; [assumption | now apply H].
        -- intros H f Hf. apply H. now right.
      * split; [discriminate|]. intros H.
        rewrite <- Hc. apply H; [now left | assumption].
    + rewrite IH. split.
      * intros H f [<- | Hf] Hft; [contradiction | now apply H].
      * intros H f Hf. apply H. now right.
Qed.

(** X2. [typeReady] is true exactly when the type of every Field child is
    in the registry, and then [parseStructured] does not return [None]. *)
Theorem typeReady_parseStructured (types : OrderedDict Type_)
  (typeXml : TypeXml) :
  (typeReady types typeXml = true <->
   forall f, In f (children typeXml) -> tag f = Field_tag ->
             od_contains (stripTypename (TypeName f)) types = true) /\
  (typeReady types typeXml = true ->
   exists t, parseStructured types typeXml = Some t).
Proof.
  split; [apply typeReady_loop_spec|].
  intros H0.
  pose proof (proj1 (typeReady_loop_spec types (children typeXml)) H0) as H.
  unfold parseStructured.
  destruct (parse_members_Some types
              (parse_lengthfields (children typeXml) []) (children typeXml))
    with (members := @nil (string * StructMember)) as [ms Hms].
  - intros f Hf Ht _. now apply H.
  - rewrite Hms. now eexists.
Qed.

Lemma typeReady_parseStructured_witness :
  exists t, parseStructured initial_types array_field_example = Some t.
Proof.
  apply (proj2 (typeReady_parseStructured initial_types array_field_example)).
  reflexivity.
Defined.

(** ** Shape of the registry, whatever the input *)

Lemma od_set_app_r {V : Type} (k : string) (v : V) (d d' : OrderedDict V) :
  od_contains k d = false -> od_set k v (d ++ d')%list = (d ++ od_set k v d')%list.
Proof.
  induction d as [|[k0 v0] d IH]; cbn [od_contains od_set app]; [reflexivity|].
  destruct (k0 =? k); cbn [orb]; [discriminate|].
  intros H. now rewrite IH.
Qed.

Lemma od_set_NoDup {V : Type} (k : string) (v : V) (d : OrderedDict V) :
  NoDup (od_keys d) -> NoDup (od_keys (od_set k v d)).
Proof.
  intros H. rewrite od_set_keys.
  destruct (od_contains k d) eqn:E; [assumption|].
  apply NoDup_app; [assumption | repeat constructor; intros [] | ].
  intros a Ha [<- | []]. apply od_contains_In in Ha. congruence.
Qed.

(** The key a step stores under is the record's name or its sanitized
    form, and it is not an excluded name. *)
Lemma inserted_key (types : OrderedDict Type_) (typeXml : TypeXml) (t : Type_) :
  skipType (type_Name typeXml) = false ->
  (type_tag typeXml = EnumeratedType_tag /\ t = parseEnumeration typeXml) \/
  (type_tag typeXml = OpaqueType_tag /\ t = parseOpaque typeXml) \/
  (type_tag typeXml = StructuredType_tag /\
   parseStructured types typeXml = Some t) ->
  (type_name t = type_Name typeXml \/
   type_name t = protected_identifier (type_Name typeXml)) /\
  skipType (type_name t) = false.
Proof.
  intros Hs Ht.
  assert (Hn : type_name t = type_Name typeXml \/
               type_name t = protected_identifier (type_Name typeXml)).
  { destruct Ht as [[_ ->] | [[_ ->] | [_ Hp]]].
    - destruct (parseEnumeration_shape typeXml) as (d & e & ->). now right.
    - now left.
    - apply parseStructured_shape in Hp as (m & _ & ->). now right. }
  split; [assumption|].
  destruct Hn as [-> | ->]; auto using skipType_protected.
Qed.

Lemma skipType_builtin (k : string) :
  skipType k = false -> od_contains k initial_types = false.
Proof.
  intros H. unfold skipType in H.
  destruct (in_list k builtin_types) eqn:E; [discriminate|].
  apply not_true_is_false. intros Hc. apply od_contains_In in Hc.
  rewrite initial_types_keys in Hc. apply in_list_In in Hc. congruence.
Qed.

Lemma loop_body_shape (types : OrderedDict Type_) (finished : bool)
  (typeXml : TypeXml) :
  (exists rest, types = (initial_types ++ rest)%list) /\ NoDup (od_keys types) ->
  (exists rest,
     fst (loop_body (types, finished) typeXml) = (initial_types ++ rest)%list) /\
  NoDup (od_keys (fst (loop_body (types, finished) typeXml))).
Proof.
  intros [[rest ->] Hnd].
  destruct (loop_body_cases (initial_types ++ rest)%list finished typeXml)
    as [E | [(_ & Hs & t & E & Ht) | (_ & _ & _ & _ & E)]];
    rewrite E; cbn [fst]; try (split; [now exists rest | assumption]).
  destruct (inserted_key _ _ _ Hs Ht) as [_ Hk].
  split; [|now apply od_set_NoDup].
  exists (od_set (type_name t) t rest).
  now rewrite od_set_app_r by now apply skipType_builtin.
Qed.

Lemma registry_shape (fuel : nat) (typeSnippets : list TypeXml)
  (types : OrderedDict Type_) :
  parseTypeDefinitions fuel typeSnippets = Some types ->
  (exists rest, types = (initial_types ++ rest)%list) /\ NoDup (od_keys types).
Proof.
  apply (parseTypeDefinitions_invariant (fun _ => True)
           (fun types => (exists rest, types = (initial_types ++ rest)%list) /\
                         NoDup (od_keys types))).
  - intros types0 finished x _ H. now apply loop_body_shape.
  - apply Forall_forall. trivial.
  - split; [exists []; now rewrite app_nil_r|].
    rewrite initial_types_keys. unfold builtin_types.
    repeat (constructor; [simpl; intuition discriminate|]). constructor.
Qed.

Lemma initial_types_get (k : string) :
  In k builtin_types -> od_get k initial_types = Some (BuiltinType_init k).
Proof.
  intros H. unfold builtin_types in H. simpl in H.
  repeat (destruct H as [<- | H]; [reflexivity|]). contradiction.
Qed.

(** X3. In every registry the resolver returns the builtins come first, in
    table order, each with its seeded entry; the keys are pairwise
    distinct, so no record is filed under a builtin's name. *)
Theorem builtins_stay_first (fuel : nat) (typeSnippets : list TypeXml)
  (types : OrderedDict Type_) :
  parseTypeDefinitions fuel typeSnippets = Some types ->
  (exists rest, types = (initial_types ++ rest)%list) /\
  NoDup (od_keys types) /\
  (forall k, In k builtin_types ->
             od_get k types = Some (BuiltinType_init k)).
Proof.
  intros H. apply registry_shape in H as [[rest ->] Hnd].
  split; [now exists rest|]. split; [assumption|].
  intros k Hk. now rewrite od_get_app, initial_types_get.
Qed.

Lemma builtins_stay_first_witness :
  od_get "String" (initial_types ++ [("string", OpaqueType "string"
                                         (Some "A character string."))])%list
  = Some (BuiltinType_init "String").
Proof.
  refine (proj2 (proj2 (builtins_stay_first 1 reserved_opaque _ _)) "String" _).
  - reflexivity.
  - simpl. tauto.
Defined.

(** X4. One step of the loop never removes or moves a key: the keys after
    the step are the keys before it, followed by at most one new key.  So
    it is over any sequence of steps. *)
Theorem registry_keys_only_grow :
  (forall types finished typeXml,
     exists new,
       od_keys (fst (loop_body (types, finished) typeXml))
       = (od_keys types ++ new)%list /\
       List.length new <= 1) /\
  (forall typeSnippets state,
     exists new,
       od_keys (fst (fold_left loop_body typeSnippets state))
       = (od_keys (fst state) ++ new)%list).
Proof.
  assert (Hstep : forall types finished typeXml,
             exists new,
               od_keys (fst (loop_body (types, finished) typeXml))
               = (od_keys types ++ new)%list /\
               List.length new <= 1).
  { intros types finished typeXml.
    destruct (loop_body_cases types finished typeXml)
      as [E | [(_ & _ & t & E & _) | (_ & _ & _ & _ & E)]];
      rewrite E; cbn [fst];
      try (exists []; rewrite app_nil_r; split; [reflexivity | simpl; lia]).
    rewrite od_set_keys. destruct (od_contains (type_name t) types).
    - exists []. rewrite app_nil_r. split; [reflexivity | simpl; lia].
    - exists [type_name t]. split; [reflexivity | simpl; lia]. }
  split; [exact Hstep|].
  induction typeSnippets as [|x l IH]; intros [types fin]; cbn [fold_left].
  - exists []. now rewrite app_nil_r.
  - destruct (Hstep types fin x) as (new1 & H1 & _).
    destruct (IH (loop_body (types, fin) x)) as (new2 & H2).
    exists (new1 ++ new2)%list. cbn [fst]. now rewrite H2, H1, app_assoc.
Qed.

(** ** What the script writes *)

Lemma NoDup_app_disjoint {A : Type} (l l' : list A) :
  NoDup (l ++ l') -> forall a, In a l -> ~ In a l'.
Proof.
  induction l as [|x l IH]; cbn [app]; intros H a Ha; [destruct Ha|].
  inversion H as [|? ? Hx Hl]; subst. destruct Ha as [<- | Ha].
  - intros Hin. apply Hx, in_or_app. now right.
  - now apply IH.
Qed.

Lemma filter_all {A : Type} (f : A -> bool) (l : list A) :
  (forall a, In a l -> f a = true) -> filter f l = l.
Proof.
  induction l as [|x l IH]; cbn [filter]; intros H; [reflexivity|].
  rewrite (H x) by now left. rewrite IH; [reflexivity|].
  intros a Ha. apply H. now right.
Qed.

Lemma emitted_rest (rest : OrderedDict Type_) :
  NoDup (od_keys (initial_types ++ rest)%list) ->
  emitted (initial_types ++ rest)%list = rest.
Proof.
  intros Hnd. unfold emitted. rewrite filter_app.
  replace (filter (fun item => negb (in_list (fst item) builtin_types))
             initial_types) with (@nil (string * Type_)) by reflexivity.
  cbn [app]. apply filter_all. intros [k t] Hin. cbn [fst].
  apply negb_true_iff, in_list_not_In. intros Hb.
  unfold od_keys in Hnd. rewrite map_app in Hnd.
  apply (NoDup_app_disjoint _ _ Hnd k).
  - fold (od_keys initial_types). now rewrite initial_types_keys.
  - now apply (in_map fst) in Hin.
Qed.

Lemma declarations_length (rest : OrderedDict Type_) :
  List.length (flat_map declarations rest) = 2 * List.length rest.
Proof.
  induction rest as [|item rest IH]; cbn [flat_map declarations app length];
    [reflexivity|].
  rewrite IH. lia.
Qed.

(** X5. When the resolver returns, the script writes the prelude, then for
    each registry entry after the builtins, in registry order, its
    declaration and its list wrapper, then the closing line: two strings
    per entry and nothing for a builtin. *)
Theorem main_output (prelude : string) (fuel : nat)
  (typeSnippets : list TypeXml) (idl : list string) :
  main prelude fuel typeSnippets = Some idl ->
  exists rest,
    parseTypeDefinitions fuel typeSnippets = Some (initial_types ++ rest)%list /\
    idl = ([prelude] ++ flat_map declarations rest ++ ["};"])%list /\
    List.length idl = 2 * List.length rest + 2.
Proof.
  unfold main.
  destruct (parseTypeDefinitions fuel typeSnippets) as [types|] eqn:Hp;
    [|discriminate].
  intros [= <-].
  destruct (registry_shape _ _ _ Hp) as [[rest ->] Hnd].
  exists rest. split; [reflexivity|].
  unfold printidl. rewrite emit_types_spec, emitted_rest by assumption.
  split; [reflexivity|].
  rewrite !length_app, declarations_length. simpl. lia.
Qed.

Lemma main_output_witness :
  exists rest,
    parseTypeDefinitions 1 [Color_example] = Some (initial_types ++ rest)%list /\
    List.length rest = 1.
Proof.
  destruct (main_output "module UA {" 1 [Color_example] _ eq_refl)
    as (rest & Hp & _ & Hl).
  exists rest. split; [exact Hp|]. simpl in Hl. lia.
Defined.

(** ** Records the loop passes over *)

Lemma loop_body_no_part (state : OrderedDict Type_ * bool) (typeXml : TypeXml) :
  takes_part typeXml = false -> loop_body state typeXml = state.
Proof.
  destruct state as [types finished]. unfold takes_part, loop_body.
  destruct (skipType (type_Name typeXml)); [now rewrite orb_true_r|].
  destruct (od_contains (type_Name typeXml) types); [reflexivity|].
  cbn [negb andb orb].
  destruct (type_tag typeXml =? EnumeratedType_tag); [discriminate|].
  destruct (type_tag typeXml =? OpaqueType_tag); [discriminate|].
  destruct (type_tag typeXml =? StructuredType_tag); [discriminate|].
  reflexivity.
Qed.

Lemma fold_loop_body_filter (typeSnippets : list TypeXml) :
  forall state,
    fold_left loop_body (filter takes_part typeSnippets) state
    = fold_left loop_body typeSnippets state.
Proof.
  induction typeSnippets as [|x l IH]; intros state; cbn [filter fold_left];
    [reflexivity|].
  destruct (takes_part x) eqn:E; cbn [fold_left].
  - apply IH.
  - now rewrite loop_body_no_part, IH.
Qed.

Lemma parseTypeDefinitions_filter (fuel : nat) (typeSnippets : list TypeXml) :
  parseTypeDefinitions fuel (filter takes_part typeSnippets)
  = parseTypeDefinitions fuel typeSnippets.
Proof.
  unfold parseTypeDefinitions. generalize initial_types.
  induction fuel as [|fuel IH]; intros types; cbn [while_loop]; [reflexivity|].
  unfold pass. rewrite fold_loop_body_filter.
  destruct (fold_left loop_body typeSnippets (types, true)) as [types' fin].
  destruct fin; [reflexivity | apply IH].
Qed.

Lemma for_loop_filter (typeSnippets : list Element) :
  forall state,
    for_loop (filter element_takes_part typeSnippets) state
    = for_loop typeSnippets state.
Proof.
  induction typeSnippets as [|e l IH]; intros state; cbn [filter for_loop];
    [reflexivity|].
  unfold element_takes_part at 1.
  destruct (element_Name e) as [name|] eqn:En.
  - destruct (takes_part _) eqn:Htp; cbn [for_loop].
    + rewrite En. apply IH.
    + now rewrite loop_body_no_part, IH.
  - cbn [for_loop]. now rewrite En.
Qed.

Lemma for_loop_nameless (typeSnippets : list Element) :
  (exists e, In e typeSnippets /\ element_Name e = None) ->
  forall state, for_loop typeSnippets state = None.
Proof.
  intros (e & Hin & He).
  induction typeSnippets as [|e0 l IH]; [destruct Hin|].
  intros state. cbn [for_loop]. destruct Hin as [-> | Hin].
  - now rewrite He.
  - destruct (element_Name e0); [now apply IH | reflexivity].
Qed.

Lemma for_loop_named (typeSnippets : list TypeXml) :
  forall state,
    for_loop (map element_of typeSnippets) state
    = Some (fold_left loop_body typeSnippets state).
Proof.
  induction typeSnippets as [|x l IH]; intros state;
    cbn [map for_loop fold_left]; [reflexivity|].
  cbn [element_of element_Name element_tag element_children].
  rewrite IH. now destruct x.
Qed.

(** X6. An element that has a Name and is excluded, or has a Name and a tag
    that is none of EnumeratedType, OpaqueType and StructuredType, has no
    effect: the loop has the same outcome, after the same number of passes,
    with or without it.  An element without a Name, whatever its tag,
    makes the first pass raise TypeError.  And on elements that all have a
    Name the outcome is that of [parseTypeDefinitions] on the records. *)
Theorem records_without_part :
  (forall fuel typeSnippets,
     parseTypeDefinitions_elements fuel
       (filter element_takes_part typeSnippets)
     = parseTypeDefinitions_elements fuel typeSnippets) /\
  (forall fuel typeSnippets,
     (exists e, In e typeSnippets /\ element_Name e = None) ->
     parseTypeDefinitions_elements (S fuel) typeSnippets = TypeError) /\
  (forall fuel typeSnippets,
     parseTypeDefinitions_elements fuel (map element_of typeSnippets)
     = outcome_of (parseTypeDefinitions fuel typeSnippets)).
Proof.
  split; [|split].
  - intros fuel typeSnippets. unfold parseTypeDefinitions_elements.
    generalize initial_types.
    induction fuel as [|fuel IH]; intros types; cbn [while_loop_elements];
      [reflexivity|].
    rewrite for_loop_filter.
    destruct (for_loop typeSnippets (types, true)) as [[types' fin]|];
      [|reflexivity].
    destruct fin; [reflexivity | apply IH].
  - intros fuel typeSnippets H. unfold parseTypeDefinitions_elements.
    cbn [while_loop_elements]. now rewrite for_loop_nameless.
  - intros fuel typeSnippets.
    unfold parseTypeDefinitions_elements, parseTypeDefinitions.
    generalize initial_types.
    induction fuel as [|fuel IH]; intros types;
      cbn [while_loop_elements while_loop]; [reflexivity|].
    rewrite for_loop_named. fold (pass typeSnippets types).
    destruct (pass typeSnippets types) as [types' fin].
    destruct fin; [reflexivity | apply IH].
Qed.

Lemma records_without_part_witness :
  parseTypeDefinitions_elements 1
    [element_of Color_example;
     mkElement Documentation_tag None [];
     element_of excluded_example]
  = TypeError.
Proof.
  apply (proj1 (proj2 records_without_part) 0).
  exists (mkElement Documentation_tag None []).
  split; [right; left; reflexivity | reflexivity].
Defined.

(** ** Input in declaration order *)

Lemma od_contains_step (types : OrderedDict Type_) (finished : bool)
  (typeXml : TypeXml) (k : string) :
  od_contains k types = true ->
  od_contains k (fst (loop_body (types, finished) typeXml)) = true.
Proof.
  intros H.
  destruct (loop_body_cases types finished typeXml)
    as [E | [(_ & _ & t & E & _) | (_ & _ & _ & _ & E)]];
    rewrite E; cbn [fst]; try assumption.
  rewrite od_contains_set, H. apply orb_true_r.
Qed.

Lemma od_contains_fold (typeSnippets : list TypeXml) (k : string) :
  forall state,
    od_contains k (fst state) = true ->
    od_contains k (fst (fold_left loop_body typeSnippets state)) = true.
Proof.
  induction typeSnippets as [|x l IH]; intros [types fin] H; cbn [fold_left];
    [assumption|].
  apply IH. now apply od_contains_step.
Qed.

(** Why a step leaves the state as it is, or what it does to it. *)
Lemma loop_body_outcome (types : OrderedDict Type_) (finished : bool)
  (typeXml : TypeXml) :
  (od_contains (type_Name typeXml) types = true /\
   loop_body (types, finished) typeXml = (types, finished)) \/
  (takes_part typeXml = false /\
   loop_body (types, finished) typeXml = (types, finished)) \/
  (takes_part typeXml = true /\
   od_contains (type_Name typeXml) types = false /\
   exists t, loop_body (types, finished) typeXml
               = (od_set (type_name t) t types, finished) /\
             ((type_tag typeXml = EnumeratedType_tag /\
               t = parseEnumeration typeXml) \/
              (type_tag typeXml = OpaqueType_tag /\
               t = parseOpaque typeXml) \/
              (type_tag typeXml = StructuredType_tag /\
               parseStructured types typeXml = Some t))) \/
  (takes_part typeXml = true /\
   od_contains (type_Name typeXml) types = false /\
   type_tag typeXml = StructuredType_tag /\
   parseStructured types typeXml = None /\
   loop_body (types, finished) typeXml = (types, false)).
Proof.
  destruct (od_contains (type_Name typeXml) types) eqn:Hc.
  { left. split; [reflexivity | now apply loop_body_known]. }
  destruct (takes_part typeXml) eqn:Htp.
  2: { right; left. split; [reflexivity | now apply loop_body_no_part]. }
  right; right.
  unfold takes_part in Htp. apply andb_true_iff in Htp as [Hs Htag].
  apply negb_true_iff in Hs. unfold loop_body. rewrite Hc, Hs. cbn [orb].
  destruct (String.eqb_spec (type_tag typeXml) EnumeratedType_tag) as [He|_].
  { left. repeat split. exists (parseEnumeration typeXml).
    split; [reflexivity | now left]. }
  destruct (String.eqb_spec (type_tag typeXml) OpaqueType_tag) as [Ho|_].
  { left. repeat split. exists (parseOpaque typeXml).
    split; [reflexivity | right; now left]. }
  destruct (String.eqb_spec (type_tag typeXml) StructuredType_tag) as [Hst|_];
    [|discriminate Htag].
  destruct (parseStructured types typeXml) as [t|] eqn:Hp.
  - left. repeat split. exists t. split; [reflexivity | right; right; now split].
  - right. repeat split; assumption.
Qed.

Lemma inserted_key_own (types : OrderedDict Type_) (typeXml : TypeXml)
  (t : Type_) :
  filed_under_own_name typeXml ->
  (type_tag typeXml = EnumeratedType_tag /\ t = parseEnumeration typeXml) \/
  (type_tag typeXml = OpaqueType_tag /\ t = parseOpaque typeXml) \/
  (type_tag typeXml = StructuredType_tag /\
   parseStructured types typeXml = Some t) ->
  type_name t = type_Name typeXml.
Proof.
  intros Hown Ht. destruct Ht as [[Hg ->] | [[_ ->] | [Hg Hp]]].
  - destruct (parseEnumeration_shape typeXml) as (d & e & ->).
    cbn [type_name]. destruct Hown as [Hk | Ho].
    + now apply protected_identifier_id.
    + rewrite Hg in Ho. discriminate Ho.
  - reflexivity.
  - destruct (parseStructured_shape _ _ _ Hp) as (m & _ & ->).
    cbn [type_name]. destruct Hown as [Hk | Ho].
    + now apply protected_identifier_id.
    + rewrite Hg in Ho. discriminate Ho.
Qed.




(** ** The pass that ends the loop *)

Lemma while_loop_last_pass (fuel : nat) (typeSnippets : list TypeXml) :
  forall types types',
    while_loop fuel typeSnippets types = Some types' ->
    exists types0, pass typeSnippets types0 = (types', true).
Proof.
  induction fuel as [|fuel IH]; intros types types'; cbn [while_loop];
    [discriminate|].
  destruct (pass typeSnippets types) as [types1 fin] eqn:E. destruct fin.
  - intros [= <-]. now exists types.
  - apply IH.
Qed.

Lemma finished_fold_registers (typeSnippets : list TypeXml) :
  forall types finished types',
    fold_left loop_body typeSnippets (types, finished) = (types', true) ->
    forall x, In x typeSnippets -> takes_part x = true ->
      od_contains (type_Name x) types' = true \/
      (type_tag x <> OpaqueType_tag /\
       od_contains (protected_identifier (type_Name x)) types' = true).
Proof.
  induction typeSnippets as [|x0 l IH]; intros types finished types' Hfold x Hin Htp;
    [destruct Hin|].
  cbn [fold_left] in Hfold.
  destruct Hin as [-> | Hin].
  2: { destruct (loop_body (types, finished) x0) as [T1 f1].
       now apply (IH T1 f1 types' Hfold). }
  assert (Hmono : forall k,
             od_contains k (fst (loop_body (types, finished) x)) = true ->
             od_contains k types' = true).
  { intros k Hk.
    pose proof (od_contains_fold l k (loop_body (types, finished) x) Hk) as H.
    now rewrite Hfold in H. }
  destruct (loop_body_outcome types finished x)
    as [[Hc E] | [[Hno E] | [(_ & Hc & t & E & Ht)
                            | (_ & Hc & Htag & Hp & E)]]];
    rewrite E in Hmono, Hfold; cbn [fst] in Hmono.
  - left. now apply Hmono.
  - congruence.
  - assert (Hk : od_contains (type_name t) types' = true).
    { apply Hmono. rewrite od_contains_set, String.eqb_refl. reflexivity. }
    destruct Ht as [[Hg ->] | [[_ ->] | [Hg Hp]]].
    + destruct (parseEnumeration_shape x) as (d & e & Heq).
      rewrite Heq in Hk. cbn [type_name] in Hk.
      right. split; [rewrite Hg; discriminate | assumption].
    + left. exact Hk.
    + destruct (parseStructured_shape _ _ _ Hp) as (m & _ & ->).
      cbn [type_name] in Hk.
      right. split; [rewrite Hg; discriminate | assumption].
  - pose proof (fold_loop_body_unfinished l types) as H.
    rewrite Hfold in H. discriminate H.
Qed.

(** X8. When the resolver returns, every record that is not excluded and
    is of one of the three kinds is in the registry under its name or
    under its sanitized name: none is left deferred. *)
Theorem returned_registry_complete (fuel : nat) (typeSnippets : list TypeXml)
  (types : OrderedDict Type_) (typeXml : TypeXml) :
  parseTypeDefinitions fuel typeSnippets = Some types ->
  In typeXml typeSnippets ->
  takes_part typeXml = true ->
  od_contains (type_Name typeXml) types = true \/
  od_contains (protected_identifier (type_Name typeXml)) types = true.
Proof.
  intros Hp Hin Htp.
  apply while_loop_last_pass in Hp as [types0 Hpass].
  destruct (finished_fold_registers typeSnippets types0 true types Hpass
              typeXml Hin Htp) as [H | [_ H]]; [now left | now right].
Qed.

Lemma returned_registry_complete_witness :
  od_contains "switch"
    (initial_types ++
     [("_switch", parseEnumeration
                    (an_EnumeratedType "switch"
                       [an_EnumeratedValue "Low" "0";
                        an_EnumeratedValue "High" "1"]))])%list = true \/
  od_contains (protected_identifier "switch")
    (initial_types ++
     [("_switch", parseEnumeration
                    (an_EnumeratedType "switch"
                       [an_EnumeratedValue "Low" "0";
                        an_EnumeratedValue "High" "1"]))])%list = true.
Proof.
  apply (returned_registry_complete 1 switch_twice _
           (an_EnumeratedType "switch"
              [an_EnumeratedValue "Off" "0"; an_EnumeratedValue "On" "1"])).
  - reflexivity.
  - left. reflexivity.
  - reflexivity.
Defined.




(** ** Records without elements or members *)

(** X10. An enumeration record without EnumeratedValue children is
    declared as [enum Name] followed by the closing line: the slice
    [tdef[:-3]], meant for the last separator, cuts the opening brace. *)
Theorem empty_enumeration_declaration (typeXml : TypeXml) :
  EnumeratedValues typeXml = [] ->
  typedef_idl (parseEnumeration typeXml)
  = Some (TAB ++ "enum " ++ protected_identifier (type_Name typeXml)
              ++ LF ++ TAB ++ "};").
Proof.
  intros H. rewrite parseEnumeration_declaration; rewrite H.
  - reflexivity.
  - constructor.
Qed.

Lemma empty_enumeration_declaration_witness :
  typedef_idl (parseEnumeration
                 (an_EnumeratedType "Nothing" [a_Documentation "No value."]))
  = Some (TAB ++ "enum Nothing" ++ LF ++ TAB ++ "};").
Proof.
  apply (empty_enumeration_declaration
           (an_EnumeratedType "Nothing" [a_Documentation "No value."])).
  reflexivity.
Defined.

Lemma parse_members_no_member (types : OrderedDict Type_)
  (lengthfields : list string) (cs : list Child) :
  filter (is_member lengthfields) cs = [] ->
  forall members, parse_members types lengthfields cs members = Some members.
Proof.
  induction cs as [|child cs IH]; cbn [filter parse_members]; intros H members;
    [reflexivity|].
  destruct (is_member lengthfields child) eqn:E; [discriminate|].
  unfold is_member in E.
  destruct (tag child =? Field_tag); cbn [negb andb] in *; [|now apply IH].
  apply negb_false_iff in E. rewrite E. now apply IH.
Qed.

(** X11. A Structured record without member fields (it has no Field child,
    or every Field child is named as a length field) is resolved on any
    registry, the empty one included, and declared as a struct without
    members. *)
Theorem memberless_structure (types : OrderedDict Type_) (typeXml : TypeXml) :
  member_fields typeXml = [] ->
  parseStructured types typeXml
  = Some (StructType (protected_identifier (type_Name typeXml))
            (parse_description (children typeXml) (Some "")) []) /\
  typedef_idl (StructType (protected_identifier (type_Name typeXml))
                 (parse_description (children typeXml) (Some "")) [])
  = Some (TAB ++ " struct " ++ protected_identifier (type_Name typeXml)
              ++ " {" ++ LF ++ TAB ++ "};").
Proof.
  intros H. split.
  - unfold parseStructured. now rewrite parse_members_no_member.
  - cbn [typedef_idl]. unfold StructType_typedef_idl.
    cbn [od_values map fold_left]. now rewrite !append_assoc.
Qed.

Lemma memberless_structure_witness :
  parseStructured []
    (a_StructuredType "Counted"
       [a_Field "NoOfItems" "opc:Int32" None;
        a_Field "NoOfItems" "tns:Missing" (Some "NoOfItems")])
  = Some (StructType "Counted" (Some "") []).
Proof.
  apply (proj1 (memberless_structure []
                  (a_StructuredType "Counted"
                     [a_Field "NoOfItems" "opc:Int32" None;
                      a_Field "NoOfItems" "tns:Missing" (Some "NoOfItems")])
                  eq_refl)).
Defined.

(** ** Descriptions *)

Lemma parse_description_none (cs : list Child) :
  (forall c, In c cs -> tag c <> Documentation_tag) ->
  forall description, parse_description cs description = description.
Proof.
  induction cs as [|child cs IH]; intros H description; cbn [parse_description];
    [reflexivity|].
  destruct (String.eqb_spec (tag child) Documentation_tag) as [E|_].
  - exfalso. now apply (H child); [left|].
  - apply IH. intros c Hc. apply H. now right.
Qed.

Lemma parse_description_last (cs1 cs2 : list Child) (d : Child) :
  tag d = Documentation_tag ->
  (forall c, In c cs2 -> tag c <> Documentation_tag) ->
  forall description,
    parse_description (cs1 ++ d :: cs2) description = text d.
Proof.
  intros Hd H2. induction cs1 as [|child cs1 IH]; intros description;
    cbn [app parse_description].
  - rewrite Hd, String.eqb_refl. now apply parse_description_none.
  - apply IH.
Qed.

Lemma parseEnumeration_loop_description (name : string) (cs : list Child) :
  forall description elements,
    fst (parseEnumeration_loop name cs description elements)
    = parse_description cs description.
Proof.
  induction cs as [|child cs IH]; intros description elements;
    cbn [parseEnumeration_loop parse_description]; [reflexivity | apply IH].
Qed.

(** X12. The description of a parsed type is the text of the last
    Documentation child of its record, whatever the kind of the record,
    and the empty string when the record has no Documentation child. *)
Theorem description_is_last_Documentation (typeXml : TypeXml) :
  ((forall c, In c (children typeXml) -> tag c <> Documentation_tag) ->
   parseOpaque typeXml = OpaqueType (type_Name typeXml) (Some "") /\
   (exists elements,
      parseEnumeration typeXml
      = EnumerationType (protected_identifier (type_Name typeXml)) (Some "")
          elements) /\
   (forall types t,
      parseStructured types typeXml = Some t ->
      exists members,
        t = StructType (protected_identifier (type_Name typeXml)) (Some "")
              members)) /\
  (forall cs1 d cs2,
     children typeXml = (cs1 ++ d :: cs2)%list ->
     tag d = Documentation_tag ->
     (forall c, In c cs2 -> tag c <> Documentation_tag) ->
     parseOpaque typeXml = OpaqueType (type_Name typeXml) (text d) /\
     (exists elements,
        parseEnumeration typeXml
        = EnumerationType (protected_identifier (type_Name typeXml)) (text d)
            elements) /\
     (forall types t,
        parseStructured types typeXml = Some t ->
        exists members,
          t = StructType (protected_identifier (type_Name typeXml)) (text d)
                members)).
Proof.
  assert (Hall : forall description,
             parse_description (children typeXml) (Some "") = description ->
             parseOpaque typeXml = OpaqueType (type_Name typeXml) description /\
             (exists elements,
                parseEnumeration typeXml
                = EnumerationType (protected_identifier (type_Name typeXml))
                    description elements) /\
             (forall types t,
                parseStructured types typeXml = Some t ->
                exists members,
                  t = StructType (protected_identifier (type_Name typeXml))
                        description members)).
  { intros description Hd. split; [|split].
    - unfold parseOpaque, OpaqueType_init. now rewrite Hd.
    - unfold parseEnumeration.
      pose proof (parseEnumeration_loop_description (type_Name typeXml)
                    (children typeXml) (Some "") []) as Hl.
      destruct (parseEnumeration_loop _ _ _ _) as [d e]. cbn [fst] in Hl.
      exists e. unfold EnumerationType_init. now rewrite Hl, Hd.
    - intros types t Hp.
      apply parseStructured_shape in Hp as (m & _ & ->).
      exists m. now rewrite Hd. }
  split.
  - intros Hno. apply Hall. now apply parse_description_none.
  - intros cs1 d cs2 Hc Hd Hno. apply Hall. rewrite Hc.
    now apply parse_description_last.
Qed.

Lemma description_is_last_Documentation_witness :
  parseOpaque
    (an_OpaqueType "Image"
       [a_Documentation "A picture."; a_Documentation "An image."])
  = OpaqueType "Image" (Some "An image.").
Proof.
  apply (proj2 (description_is_last_Documentation
                  (an_OpaqueType "Image"
                     [a_Documentation "A picture.";
                      a_Documentation "An image."]))
           [a_Documentation "A picture."] (a_Documentation "An image.") []).
  - reflexivity.
  - reflexivity.
  - intros c [].
Defined.

(** ** Enumerations and opaque types in input order *)

Lemma loop_body_resolve_now (types : OrderedDict Type_) (finished : bool)
  (typeXml : TypeXml) :
  type_tag typeXml = EnumeratedType_tag \/ type_tag typeXml = OpaqueType_tag ->
  filed_under_own_name typeXml ->
  skipType (type_Name typeXml) = false ->
  od_contains (type_Name typeXml) types = false ->
  loop_body (types, finished) typeXml
  = ((types ++ [(type_Name typeXml, resolve_now typeXml)])%list, finished).
Proof.
  intros Htag Hown Hs Hc. unfold loop_body, resolve_now.
  rewrite Hc, Hs. cbn [orb].
  destruct Htag as [Ht | Ht]; rewrite Ht.
  - rewrite String.eqb_refl.
    rewrite (inserted_key_own types typeXml (parseEnumeration typeXml) Hown)
      by (left; now split).
    now rewrite od_set_fresh.
  - replace (OpaqueType_tag =? EnumeratedType_tag) with false by reflexivity.
    rewrite String.eqb_refl. cbn [parseOpaque OpaqueType_init type_name].
    now rewrite od_set_fresh.
Qed.

Lemma fold_resolve_now (typeSnippets : list TypeXml) :
  Forall (fun x => type_tag x = EnumeratedType_tag \/
                   type_tag x = OpaqueType_tag) typeSnippets ->
  Forall filed_under_own_name typeSnippets ->
  Forall (fun x => skipType (type_Name x) = false) typeSnippets ->
  NoDup (map type_Name typeSnippets) ->
  forall types finished,
    (forall x, In x typeSnippets -> od_contains (type_Name x) types = false) ->
    fold_left loop_body typeSnippets (types, finished)
    = ((types ++ map (fun x => (type_Name x, resolve_now x)) typeSnippets)%list,
       finished).
Proof.
  induction typeSnippets as [|x l IH]; intros Htag Hown Hs Hnd types finished Hc;
    cbn [fold_left map].
  - now rewrite app_nil_r.
  - inversion Htag; inversion Hown; inversion Hs; inversion Hnd; subst.
    rewrite loop_body_resolve_now; try assumption; [|apply Hc; now left].
    rewrite IH; try assumption.
    + now rewrite <- app_assoc.
    + intros y Hy. rewrite od_contains_app, (Hc y) by now right.
      cbn [od_contains orb]. rewrite orb_false_r. apply String.eqb_neq.
      intros Heq. match goal with H : ~ In _ _ |- _ => apply H end.
      rewrite Heq. now apply in_map.
Qed.

(** X13. An input of Enumeration and Opaque records only, none excluded,
    with pairwise distinct names and no Enumeration named by a reserved
    word, is resolved in one pass, and the registry holds, after the
    builtins, one entry per record under the record's name, in input
    order. *)
Theorem enumerations_and_opaques_in_input_order
  (typeSnippets : list TypeXml) :
  Forall (fun x => type_tag x = EnumeratedType_tag \/
                   type_tag x = OpaqueType_tag) typeSnippets ->
  Forall filed_under_own_name typeSnippets ->
  Forall (fun x => skipType (type_Name x) = false) typeSnippets ->
  NoDup (map type_Name typeSnippets) ->
  forall fuel,
    parseTypeDefinitions (S fuel) typeSnippets
    = Some (initial_types ++
            map (fun x => (type_Name x, resolve_now x)) typeSnippets)%list.
Proof.
  intros Htag Hown Hs Hnd fuel. unfold parseTypeDefinitions.
  cbn [while_loop]. unfold pass. rewrite fold_resolve_now; try assumption.
  - reflexivity.
  - intros x Hx. apply skipType_builtin.
    rewrite Forall_forall in Hs. now apply Hs.
Qed.

Lemma enumerations_and_opaques_in_input_order_witness :
  parseTypeDefinitions 1
    [an_OpaqueType "string" [a_Documentation "A character string."];
     Color_example]
  = Some (initial_types ++
          [("string", OpaqueType "string" (Some "A character string."));
           ("Color", parseEnumeration Color_example)])%list.
Proof.
  apply (enumerations_and_opaques_in_input_order
           [an_OpaqueType "string" [a_Documentation "A character string."];
            Color_example]).
  - apply Forall_cons; [right; reflexivity|].
    apply Forall_cons; [left; reflexivity | apply Forall_nil].
  - apply Forall_cons; [right; reflexivity|].
    apply Forall_cons; [left; reflexivity | apply Forall_nil].
  - apply Forall_cons; [reflexivity|].
    apply Forall_cons; [reflexivity | apply Forall_nil].
  - repeat constructor; simpl; intuition discriminate.
Defined.

(** ** Witnesses for the registry lemmas *)


Lemma registry_keys_sanitized_witness :
  Forall sanitized_key
    (initial_types ++
     [("_switch", parseEnumeration
                    (an_EnumeratedType "switch"
                       [an_EnumeratedValue "Low" "0";
                        an_EnumeratedValue "High" "1"]))])%list.
Proof.
  apply (registry_keys_sanitized 1 switch_twice). reflexivity.
Defined.

(** ** A reference by a reserved name *)

Lemma inserted_registry_key (types : OrderedDict Type_) (typeXml : TypeXml)
  (t : Type_) :
  (type_tag typeXml = EnumeratedType_tag /\ t = parseEnumeration typeXml) \/
  (type_tag typeXml = OpaqueType_tag /\ t = parseOpaque typeXml) \/
  (type_tag typeXml = StructuredType_tag /\
   parseStructured types typeXml = Some t) ->
  type_name t = registry_key typeXml.
Proof.
  unfold registry_key. intros [[Hg ->] | [[Hg ->] | [Hg Hp]]]; rewrite Hg.
  - destruct (parseEnumeration_shape typeXml) as (d & e & ->). reflexivity.
  - reflexivity.
  - apply parseStructured_shape in Hp as (m & _ & ->). reflexivity.
Qed.

Section UnresolvableKey.
Variable typeSnippets : list TypeXml.
Variable R : TypeXml.
Variable f : Child.

Hypothesis R_struct : type_tag R = StructuredType_tag.
Hypothesis R_kept : skipType (type_Name R) = false.
Hypothesis R_only : forall r,
  In r typeSnippets -> registry_key r = type_Name R -> r = R.
Hypothesis f_child : In f (children R).
Hypothesis f_Field : tag f = Field_tag.
Hypothesis f_member :
  in_list (Name f) (parse_lengthfields (children R) []) = false.
Hypothesis f_not_builtin :
  ~ In (stripTypename (TypeName f)) builtin_types.
Hypothesis f_no_key : forall r,
  In r typeSnippets -> registry_key r <> stripTypename (TypeName f).

Lemma stalled_key_step (types : OrderedDict Type_) (finished : bool)
  (r : TypeXml) :
  In r typeSnippets ->
  stalled R f types -> stalled R f (fst (loop_body (types, finished) r)).
Proof.
  intros Hin Hst.
  destruct (loop_body_cases types finished r)
    as [E | [(_ & _ & t & E & Ht) | (_ & _ & _ & _ & E)]];
    rewrite E; cbn [fst]; try assumption.
  pose proof (inserted_registry_key types r t Ht) as Hn.
  destruct Hst as [Hm HR].
  split; rewrite od_contains_set, Hn.
  - rewrite Hm, orb_false_r. apply String.eqb_neq. now apply f_no_key.
  - rewrite HR, orb_false_r. apply String.eqb_neq. intros Heq.
    assert (r = R) as -> by now apply R_only.
    rewrite (stalled_defers R f R_struct R_kept f_child f_Field f_member
               types finished (conj Hm HR)) in E.
    injection E as E _.
    apply (f_equal (od_contains (type_name t))) in E.
    rewrite od_contains_set, String.eqb_refl in E. cbn [orb] in E.
    rewrite Hn, Heq in E. congruence.
Qed.

Lemma stalled_key_fold (l : list TypeXml) :
  (forall r, In r l -> In r typeSnippets) ->
  forall types finished,
    stalled R f types ->
    stalled R f (fst (fold_left loop_body l (types, finished))) /\
    (In R l \/ finished = false ->
     snd (fold_left loop_body l (types, finished)) = false).
Proof.
  induction l as [|r l IH]; intros Hl types finished Hst; cbn [fold_left].
  - split; [assumption|]. now intros [[]|H].
  - assert (Hr : In r typeSnippets) by (apply Hl; now left).
    pose proof (stalled_key_step types finished r Hr Hst) as Hst'.
    destruct (loop_body (types, finished) r) as [types' fin'] eqn:E.
    cbn [fst] in Hst'.
    destruct (IH (fun x Hx => Hl x (or_intror Hx)) types' fin' Hst')
      as [IH1 IH2].
    split; [assumption|]. intros [[-> | Hin] | ->].
    + rewrite (stalled_defers R f R_struct R_kept f_child f_Field f_member
                 types finished Hst) in E.
      injection E as <- <-. apply fold_loop_body_unfinished.
    + apply IH2. now left.
    + pose proof (loop_body_unfinished types r) as Hu.
      rewrite E in Hu. apply IH2. now right.
Qed.

Hypothesis R_input : In R typeSnippets.

Lemma stalled_key_while (fuel : nat) :
  forall types, stalled R f types -> while_loop fuel typeSnippets types = None.
Proof.
  induction fuel as [|fuel IH]; intros types Hst; cbn [while_loop];
    [reflexivity|].
  destruct (stalled_key_fold typeSnippets (fun r H => H) types true Hst)
    as [H1 H2].
  fold (pass typeSnippets types) in H1, H2.
  destruct (pass typeSnippets types) as [types' fin]. cbn [fst snd] in *.
  rewrite H2 by now left. now apply IH.
Qed.
End UnresolvableKey.

(** X16. The resolver does not return when a Structured record that is not
    excluded, and whose name is the registry key of no other record, has a
    member field whose type name is neither a builtin nor the registry key
    of any record.  The key of an enumeration or a structure is its
    sanitized name, so a field that refers to one named by a reserved
    word, by that name, is such a field. *)
Theorem reference_without_key_never_returns
  (typeSnippets : list TypeXml) (R : TypeXml) (f : Child) :
  In R typeSnippets ->
  type_tag R = StructuredType_tag ->
  skipType (type_Name R) = false ->
  (forall r, In r typeSnippets -> registry_key r = type_Name R -> r = R) ->
  In f (children R) ->
  tag f = Field_tag ->
  in_list (Name f) (parse_lengthfields (children R) []) = false ->
  ~ In (stripTypename (TypeName f)) builtin_types ->
  (forall r, In r typeSnippets ->
             registry_key r <> stripTypename (TypeName f)) ->
  forall fuel, parseTypeDefinitions fuel typeSnippets = None.
Proof.
  intros HR Hs Hk Ho Hf Ht Hm Hb Hu fuel.
  apply (stalled_key_while typeSnippets R f); try assumption.
  now apply stalled_initial.
Qed.

Lemma reference_without_key_never_returns_witness :
  parseTypeDefinitions 10
    [an_EnumeratedType "switch"
       [an_EnumeratedValue "Off" "0"; an_EnumeratedValue "On" "1"];
     a_StructuredType "Panel" [a_Field "Mode" "tns:switch" None]]
  = None.
Proof.
  apply (reference_without_key_never_returns
           [an_EnumeratedType "switch"
              [an_EnumeratedValue "Off" "0"; an_EnumeratedValue "On" "1"];
            a_StructuredType "Panel" [a_Field "Mode" "tns:switch" None]]
           (a_StructuredType "Panel" [a_Field "Mode" "tns:switch" None])
           (a_Field "Mode" "tns:switch" None)).
  - right; left; reflexivity.
  - reflexivity.
  - reflexivity.
  - intros r [<- | [<- | []]] H; [vm_compute in H; discriminate H | reflexivity].
  - left; reflexivity.
  - reflexivity.
  - reflexivity.
  - apply in_list_not_In. reflexivity.
  - intros r [<- | [<- | []]] H; vm_compute in H; discriminate H.
Defined.
